(** * Scheveningen: a West-Coast style oscillator for the GRAINS module

    A shallow embedding of [schevinengen.ino]: the two PROGMEM pitch
    tables, the MIDI callbacks, the control-rate [loop] and the audio-rate
    interrupt [SIGNAL(PWM_INTERRUPT)], followed by the properties of the
    fixed-point signal path.

    Integers are modelled as [Z] with the wrap-around of their C type
    written out ([u8], [u16], [u32]); the globals of the sketch form the
    record [State] and every routine is a function on it. *)

From Stdlib Require Import ZArith List Bool Lia.
Import ListNotations.
Local Open Scope Z_scope.

(** ** Machine integers *)

(** Storing into a [uint8_t], [uint16_t] or [uint32_t] object. *)
Definition u8 (x : Z) : Z := x mod 256.
Definition u16 (x : Z) : Z := x mod 65536.
Definition u32 (x : Z) : Z := x mod 4294967296.

(** Conversion of an integer to [bool]: anything but zero is [true]. *)
Definition to_bool (x : Z) : bool := negb (x =? 0).

(** The Arduino macros [min(a,b) ((a)<(b)?(a):(b))] and
    [max(a,b) ((a)>(b)?(a):(b))]. *)
Definition min (a b : Z) : Z := if a <? b then a else b.
Definition max (a b : Z) : Z := if a >? b then a else b.

(** The values a C object of each width can hold. *)
Definition is_u8 (x : Z) : Prop := 0 <= x < 256.
Definition is_u16 (x : Z) : Prop := 0 <= x < 65536.

(** ** Pitch tables *)

(** [freqTable]: CV code to phase increase per sample. *)
Definition freqTable : list Z :=
  [ 69; 69; 69; 69; 70; 70; 70; 70; 70; 71; 71; 71; 71; 72; 72;
    72; 72; 73; 73; 73; 73; 74; 74; 74; 74; 75; 75; 75; 75; 76;
    76; 76; 76; 77; 77; 77; 77; 78; 78; 78; 79; 79; 79; 79; 80;
    80; 80; 80; 81; 81; 81; 82; 82; 82; 82; 83; 83; 83; 83; 84;
    84; 84; 85; 85; 85; 85; 86; 86; 86; 87; 87; 87; 88; 88; 88;
    88; 89; 89; 89; 90; 90; 90; 91; 91; 91; 91; 92; 92; 92; 93;
    93; 93; 94; 94; 94; 95; 95; 95; 96; 96; 96; 97; 97; 97; 98;
    98; 98; 99; 99; 99; 100; 100; 100; 101; 101; 101; 102; 102; 102; 103;
    103; 103; 104; 104; 104; 105; 105; 105; 106; 106; 107; 107; 107; 108; 108;
    108; 109; 109; 109; 110; 110; 111; 111; 111; 112; 112; 112; 113; 113; 114;
    114; 114; 115; 115; 116; 116; 116; 117; 117; 117; 118; 118; 119; 119; 119;
    120; 120; 121; 121; 122; 122; 122; 123; 123; 124; 124; 124; 125; 125; 126;
    126; 127; 127; 127; 128; 128; 129; 129; 130; 130; 130; 131; 131; 132; 132;
    133; 133; 134; 134; 135; 135; 135; 136; 136; 137; 137; 138; 138; 139; 139;
    140; 140; 141; 141; 142; 142; 142; 143; 143; 144; 144; 145; 145; 146; 146;
    147; 147; 148; 148; 149; 149; 150; 150; 151; 151; 152; 152; 153; 154; 154;
    155; 155; 156; 156; 157; 157; 158; 158; 159; 159; 160; 160; 161; 161; 162;
    163; 163; 164; 164; 165; 165; 166; 166; 167; 168; 168; 169; 169; 170; 170;
    171; 172; 172; 173; 173; 174; 175; 175; 176; 176; 177; 178; 178; 179; 179;
    180; 181; 181; 182; 182; 183; 184; 184; 185; 186; 186; 187; 187; 188; 189;
    189; 190; 191; 191; 192; 193; 193; 194; 195; 195; 196; 197; 197; 198; 199;
    199; 200; 201; 201; 202; 203; 203; 204; 205; 205; 206; 207; 207; 208; 209;
    210; 210; 211; 212; 212; 213; 214; 215; 215; 216; 217; 218; 218; 219; 220;
    220; 221; 222; 223; 223; 224; 225; 226; 227; 227; 228; 229; 230; 230; 231;
    232; 233; 234; 234; 235; 236; 237; 238; 238; 239; 240; 241; 242; 242; 243;
    244; 245; 246; 247; 247; 248; 249; 250; 251; 252; 252; 253; 254; 255; 256;
    257; 258; 259; 259; 260; 261; 262; 263; 264; 265; 266; 267; 267; 268; 269;
    270; 271; 272; 273; 274; 275; 276; 277; 278; 278; 279; 280; 281; 282; 283;
    284; 285; 286; 287; 288; 289; 290; 291; 292; 293; 294; 295; 296; 297; 298;
    299; 300; 301; 302; 303; 304; 305; 306; 307; 308; 309; 310; 311; 312; 314;
    315; 316; 317; 318; 319; 320; 321; 322; 323; 324; 325; 327; 328; 329; 330;
    331; 332; 333; 334; 335; 337; 338; 339; 340; 341; 342; 344; 345; 346; 347;
    348; 349; 351; 352; 353; 354; 355; 357; 358; 359; 360; 361; 363; 364; 365;
    366; 368; 369; 370; 371; 373; 374; 375; 376; 378; 379; 380; 382; 383; 384;
    385; 387; 388; 389; 391; 392; 393; 395; 396; 397; 399; 400; 401; 403; 404;
    405; 407; 408; 410; 411; 412; 414; 415; 417; 418; 419; 421; 422; 424; 425;
    427; 428; 429; 431; 432; 434; 435; 437; 438; 440; 441; 443; 444; 446; 447;
    449; 450; 452; 453; 455; 456; 458; 460; 461; 463; 464; 466; 467; 469; 471;
    472; 474; 475; 477; 479; 480; 482; 484; 485; 487; 488; 490; 492; 493; 495;
    497; 498; 500; 502; 504; 505; 507; 509; 510; 512; 514; 516; 517; 519; 521;
    523; 524; 526; 528; 530; 532; 533; 535; 537; 539; 541; 542; 544; 546; 548;
    550; 552; 554; 555; 557; 559; 561; 563; 565; 567; 569; 571; 573; 575; 577;
    579; 580; 582; 584; 586; 588; 590; 592; 594; 596; 598; 600; 602; 605; 607;
    609; 611; 613; 615; 617; 619; 621; 623; 625; 627; 630; 632; 634; 636; 638;
    640; 642; 645; 647; 649; 651; 653; 656; 658; 660; 662; 665; 667; 669; 671;
    674; 676; 678; 681; 683; 685; 687; 690; 692; 695; 697; 699; 702; 704; 706;
    709; 711; 714; 716; 718; 721; 723; 726; 728; 731; 733; 736; 738; 741; 743;
    746; 748; 751; 753; 756; 758; 761; 764; 766; 769; 771; 774; 777; 779; 782;
    784; 787; 790; 793; 795; 798; 801; 803; 806; 809; 812; 814; 817; 820; 823;
    825; 828; 831; 834; 837; 839; 842; 845; 848; 851; 854; 857; 860; 862; 865;
    868; 871; 874; 877; 880; 883; 886; 889; 892; 895; 898; 901; 904; 907; 910;
    914; 917; 920; 923; 926; 929; 932; 935; 939; 942; 945; 948; 951; 955; 958;
    961; 964; 968; 971; 974; 978; 981; 984; 988; 991; 994; 998; 1001; 1004; 1008;
    1011; 1015; 1018; 1022; 1025; 1028; 1032; 1035; 1039; 1042; 1046; 1050; 1053; 1057; 1060;
    1064; 1067; 1071; 1075; 1078; 1082; 1086; 1089; 1093; 1097; 1100; 1104; 1108; 1112; 1115;
    1119; 1123; 1127; 1131; 1135; 1138; 1142; 1146; 1150; 1154; 1158; 1162; 1166; 1170; 1174;
    1178; 1182; 1186; 1190; 1194; 1198; 1202; 1206; 1210; 1214; 1218; 1222; 1226; 1231; 1235;
    1239; 1243; 1247; 1252; 1256; 1260; 1264; 1269; 1273; 1277; 1282; 1286; 1290; 1295; 1299;
    1303; 1308; 1312; 1317; 1321; 1326; 1330; 1335; 1339; 1344; 1348; 1353; 1357; 1362; 1367;
    1371; 1376; 1381; 1385; 1390; 1395; 1399; 1404; 1409; 1414; 1418; 1423; 1428; 1433; 1438;
    1443; 1448; 1452; 1457; 1462; 1467; 1472; 1477; 1482; 1487; 1492; 1497; 1502; 1508; 1513;
    1518; 1523; 1528; 1533; 1538; 1544; 1549; 1554; 1559; 1565; 1570; 1575; 1581; 1586; 1591;
    1597; 1602; 1608; 1613; 1619; 1624; 1630; 1635; 1641; 1646; 1652; 1657; 1663; 1669; 1674;
    1680; 1686; 1691; 1697; 1703; 1709; 1714; 1720; 1726; 1732; 1738; 1744; 1750; 1756; 1762;
    1768; 1774; 1780; 1786; 1792; 1798; 1804; 1810; 1816; 1822; 1828; 1835; 1841; 1847; 1853;
    1860; 1866; 1872; 1879; 1885; 1891; 1898; 1904; 1911; 1917; 1924; 1930; 1937; 1943; 1950;
    1956; 1963; 1970; 1976; 1983; 1990; 1997; 2003; 2010; 2017; 2024; 2031; 2037; 2044; 2051;
    2058; 2065; 2072; 2079; 2086; 2093; 2101; 2108; 2115; 2122; 2129; 2136; 2144; 2151; 2158;
    2165; 2173; 2180; 2188 ].

(** [midiTable]: MIDI note (offset by 24) to an index in [freqTable]. *)
Definition midiTable : list Z :=
  [ 0; 17; 33; 51; 66; 86; 101; 119; 136; 153; 169; 187; 205; 221; 238;
    255; 273; 290; 307; 325; 341; 359; 375; 393; 410; 427; 444; 461; 478; 495;
    512; 529; 546; 563; 581; 597; 615; 631; 649; 666; 683; 699; 717; 734; 751;
    768; 785; 802; 819; 836; 853; 870; 888; 904; 922; 939; 956; 973; 990; 1007;
    1023 ].

(** [pgm_read_word_near(table + i)]: a read past the end of the table
    yields whatever follows it in flash, which is modelled as [None]. *)
Definition pgm_read_word_near (table : list Z) (i : Z) : option Z :=
  if i <? 0 then None else nth_error table (Z.to_nat i).

Definition mapMIDI (input : Z) : option Z :=
  match pgm_read_word_near midiTable input with
  | Some idx => pgm_read_word_near freqTable idx
  | None => None
  end.

Definition mapFreq (input : Z) : option Z :=
  pgm_read_word_near freqTable input.

(** ** The portamento ramp *)

(** Modelled from the spec: the [rampInt] object of the Ramp library
    ([Ramp.h] is included by the sketch but is not part of it).  The spec
    gives the ramp a target, a current value, a remaining duration and a
    mode, immediate or timed-linear; a new target in immediate mode, or with
    a duration of zero, sets the current value to the target at once, and a
    timed one keeps the current value and starts from there. *)
Inductive ramp_mode : Type := NONE | LINEAR.
Inductive loop_mode : Type := ONCEFORWARD.

Record rampInt : Type := mkRamp {
  ramp_target : Z;
  ramp_current : Z;
  ramp_remaining : Z;
  ramp_mode_of : ramp_mode
}.

(** [portRamp.go(val, dur, mode, loop)]. *)
Definition go4 (val dur : Z) (mode : ramp_mode) (_ : loop_mode)
    (r : rampInt) : rampInt :=
  match mode with
  | NONE => mkRamp val val 0 NONE
  | LINEAR =>
      if dur =? 0 then mkRamp val val 0 NONE
      else mkRamp val (ramp_current r) dur LINEAR
  end.

(** [portRamp.go(val)]. *)
Definition go (val : Z) (r : rampInt) : rampInt :=
  go4 val 0 NONE ONCEFORWARD r.

(** ** Program state *)

(** The globals of the sketch, with the two output registers it writes:
    the gate pin [DIGITAL_OUT_PIN] and the PWM duty register [PWM_VALUE]. *)
Record State : Type := mkState {
  leader_polarity : bool;
  follower_polarity : bool;
  output : Z;
  leader_phase : Z;
  phase_inc : Z;
  follower_offset_current : Z;
  follower_offset_measured : Z;
  wrap_factor : Z;
  neg_wrap_factor : Z;
  follower_phase : Z;
  leader_value : Z;
  follower_value : Z;
  accumulator : Z;
  port : bool;
  portTime : Z;
  portRamp : rampInt;
  midinote : Z;
  DIGITAL_OUT_PIN : bool;
  PWM_VALUE : Z
}.

(** The initialisers of the globals; the ramp starts at rest on zero. *)
Definition power_on : State :=
  {| leader_polarity := false; follower_polarity := false; output := 0;
     leader_phase := 0; phase_inc := 1;
     follower_offset_current := 1; follower_offset_measured := 1;
     wrap_factor := 64; neg_wrap_factor := 64;
     follower_phase := 0; leader_value := 0; follower_value := 0;
     accumulator := 0;
     port := false; portTime := 0; portRamp := mkRamp 0 0 0 NONE;
     midinote := 0;
     DIGITAL_OUT_PIN := false; PWM_VALUE := 0 |}.

(** ** MIDI callbacks *)

(** The three messages the MIDI library hands to the sketch. *)
Inductive MidiMessage : Type :=
| NoteOn (channel pitch velocity : Z)
| NoteOff (channel pitch velocity : Z)
| ControlChange (channel num val : Z).

Definition set_note (gate : bool) (note : Z) (r : rampInt) (s : State)
    : State :=
  {| leader_polarity := leader_polarity s;
     follower_polarity := follower_polarity s;
     output := output s;
     leader_phase := leader_phase s;
     phase_inc := phase_inc s;
     follower_offset_current := follower_offset_current s;
     follower_offset_measured := follower_offset_measured s;
     wrap_factor := wrap_factor s;
     neg_wrap_factor := neg_wrap_factor s;
     follower_phase := follower_phase s;
     leader_value := leader_value s;
     follower_value := follower_value s;
     accumulator := accumulator s;
     port := port s;
     portTime := portTime s;
     portRamp := r;
     midinote := note;
     DIGITAL_OUT_PIN := gate;
     PWM_VALUE := PWM_VALUE s |}.

Definition set_port (p : bool) (t : Z) (s : State) : State :=
  {| leader_polarity := leader_polarity s;
     follower_polarity := follower_polarity s;
     output := output s;
     leader_phase := leader_phase s;
     phase_inc := phase_inc s;
     follower_offset_current := follower_offset_current s;
     follower_offset_measured := follower_offset_measured s;
     wrap_factor := wrap_factor s;
     neg_wrap_factor := neg_wrap_factor s;
     follower_phase := follower_phase s;
     leader_value := leader_value s;
     follower_value := follower_value s;
     accumulator := accumulator s;
     port := p;
     portTime := t;
     portRamp := portRamp s;
     midinote := midinote s;
     DIGITAL_OUT_PIN := DIGITAL_OUT_PIN s;
     PWM_VALUE := PWM_VALUE s |}.

(** [handleNoteOn]: raise the gate, clamp the note to the original pitch
    range and retarget the ramp, gliding when portamento is on.  The result
    is [None] exactly when a table would be read out of bounds. *)
Definition handleNoteOn (channel pitch velocity : Z) (s : State)
    : option State :=
  let midinote' := u16 (max 24 (min 84 pitch) - 24) in
  match mapMIDI midinote' with
  | Some inc =>
      Some (set_note true midinote'
              (if port s
               then go4 inc (portTime s) LINEAR ONCEFORWARD (portRamp s)
               else go inc (portRamp s))
              s)
  | None => None
  end.

(** [handleNoteOff]: only the gate goes low. *)
Definition handleNoteOff (channel pitch velocity : Z) (s : State) : State :=
  set_note false (midinote s) (portRamp s) s.

(** [handleControlChange]: controller 5 switches portamento and sets its
    time. *)
Definition handleControlChange (channel num val : Z) (s : State) : State :=
  if num =? 5 then
    if val =? 0 then set_port false (portTime s) s
    else set_port true (u16 (20 * val)) s
  else s.

(** [MIDI.read()] with a decoded message pending: the matching callback
    runs. *)
Definition MIDI_read (msg : option MidiMessage) (s : State) : option State :=
  match msg with
  | None => Some s
  | Some (NoteOn c p v) => handleNoteOn c p v s
  | Some (NoteOff c p v) => Some (handleNoteOff c p v s)
  | Some (ControlChange c n v) => Some (handleControlChange c n v s)
  end.

(** ** The control-rate loop *)

Inductive Pin : Type := A0 | A1 | A2 | A3.

Definition FOLLOWER_KNOB : Pin := A2.
Definition FOLLOWER_CV : Pin := A1.
Definition WRAP_KNOB : Pin := A0.
Definition WRAP_CV : Pin := A3.

Section ControlRate.

(** The converter and the ramp during one pass.  [analogRead p k] is the
    code the [k]-th conversion of pin [p] in this pass returns: an input
    can move between two conversions.  [update] is the Ramp library's
    [update()]: the value it returns and the ramp after it. *)
Variable analogRead : Pin -> nat -> Z.
Variable update : rampInt -> Z * rampInt.

(** [analogRead(cv) + analogRead(knob)], evaluated for the [k]-th time.
    Both codes are 10-bit, so the [int] sum does not overflow. *)
Definition read_sum (cv knob : Pin) (k : nat) : Z :=
  analogRead cv k + analogRead knob k.

(** [min(1023, analogRead(cv) + analogRead(knob))].  [min] is the macro
    [((a)<(b)?(a):(b))]: the sum is converted once for the comparison and,
    unless 1023 is smaller, once more for the result.  [k] evaluations of
    the sum came before; the result carries the count after. *)
Definition min_1023_sum (cv knob : Pin) (k : nat) : Z * nat :=
  if 1023 <? read_sum cv knob k then (1023, S k)
  else (read_sum cv knob (S k), S (S k)).

(** [min(64 + (min(1023, sum) >> 1), 511)]: the outer macro evaluates its
    first argument, the inner [min] included, for the comparison and once
    more for the result. *)
Definition wrap_from_inputs : Z :=
  let (a, k) := min_1023_sum WRAP_CV WRAP_KNOB 0 in
  if 64 + Z.shiftr a 1 <? 511 then
    let (b, _) := min_1023_sum WRAP_CV WRAP_KNOB k in
    64 + Z.shiftr b 1
  else 511.

Definition loop (msg : option MidiMessage) (s : State) : option State :=
  match MIDI_read msg s with
  | None => None
  | Some s1 =>
      let (inc, ramp') := update (portRamp s1) in
      let phase_inc' := u16 inc in
      let follower_offset_measured' :=
        u16 (fst (min_1023_sum FOLLOWER_CV FOLLOWER_KNOB 0)) in
      let wrap_factor' := u16 wrap_from_inputs in
      let neg_wrap_factor' := u16 (max (Z.shiftr wrap_factor' 1) 64) in
      Some {| leader_polarity := leader_polarity s1;
              follower_polarity := follower_polarity s1;
              output := output s1;
              leader_phase := leader_phase s1;
              phase_inc := phase_inc';
              follower_offset_current := follower_offset_current s1;
              follower_offset_measured := follower_offset_measured';
              wrap_factor := wrap_factor';
              neg_wrap_factor := neg_wrap_factor';
              follower_phase := follower_phase s1;
              leader_value := leader_value s1;
              follower_value := follower_value s1;
              accumulator := accumulator s1;
              port := port s1;
              portTime := portTime s1;
              portRamp := ramp';
              midinote := midinote s1;
              DIGITAL_OUT_PIN := DIGITAL_OUT_PIN s1;
              PWM_VALUE := PWM_VALUE s1 |}
  end.

End ControlRate.

(** ** The audio-rate interrupt *)

(** Follower offset smoothing: [if (cur < meas) cur++; else if (cur > meas)
    cur--;]. *)
Definition smooth (cur meas : Z) : Z :=
  if cur <? meas then u16 (cur + 1)
  else if cur >? meas then u16 (cur - 1)
  else cur.

(** [v <<= 2; v >>= 8;] on a [uint16_t]. *)
Definition rescale (v : Z) : Z :=
  let v := u16 (Z.shiftl v 2) in
  Z.shiftr v 8.

(** The parabolic sine approximation, written out once for the leader and
    once for the follower in the source. *)
Definition sine (phase : Z) : Z :=
  let v := phase in
  let v := u16 (Z.shiftl v 1) in
  let v := Z.shiftr v 8 in
  let v := u16 (v * Z.land (Z.lnot v) 255) in
  rescale v.

(** [phase & 0b1000000000000000] stored in a [bool]. *)
Definition polarity (phase : Z) : bool := to_bool (Z.land phase 32768).

(** The follower phase, computed in the 32-bit [accumulator]. *)
Definition follow (leader_phase follower_offset_current : Z) : Z :=
  let accumulator := u32 leader_phase in
  let accumulator := u32 (accumulator * follower_offset_current) in
  let accumulator := Z.shiftr accumulator 8 in
  let accumulator := u32 (accumulator + leader_phase) in
  let accumulator := Z.land accumulator 65535 in
  accumulator.

(** Ring modulation of the two magnitudes: [a *= b; a >>= 8; a = a >> 1]. *)
Definition ring (leader_value follower_value : Z) : Z :=
  let v := u16 (leader_value * follower_value) in
  let v := Z.shiftr v 8 in
  Z.shiftr v 1.

(** Asymmetric scaling by the fold threshold the polarity selects. *)
Definition scale (leader_value : Z) (leader_polarity : bool)
    (wrap_factor neg_wrap_factor : Z) : Z :=
  let v :=
    u16 (leader_value *
         (if leader_polarity then wrap_factor else neg_wrap_factor)) in
  rescale v.

(** The test for folds past the zero line: bits 8 to 15 select the branch
    ([65280 = 0b1111111100000000]), bit 8 ([256]) inverts the polarity and
    the low byte ([255]) is kept. *)
Definition multi_fold (leader_value : Z) (leader_polarity : bool)
    : Z * bool :=
  if to_bool (Z.land leader_value 65280) then
    (Z.land leader_value 255,
     if to_bool (Z.land leader_value 256) then negb leader_polarity
     else leader_polarity)
  else (leader_value, leader_polarity).

(** The actual folding of the range from 128 up. *)
Definition fold_back (leader_value : Z) : Z :=
  if leader_value >? 127 then u16 (127 - Z.land leader_value 127)
  else leader_value.

(** The whole folding step: the multi-fold test, then the reflection. *)
Definition fold (leader_value : Z) (leader_polarity : bool) : Z * bool :=
  let (v, p) := multi_fold leader_value leader_polarity in
  (fold_back v, p).

(** The bipolar signal as an unsigned byte. *)
Definition to_output (leader_polarity : bool) (leader_value : Z) : Z :=
  if leader_polarity then u8 (127 - leader_value)
  else u8 (128 + leader_value).

(** [SIGNAL(PWM_INTERRUPT)]: one audio sample. *)
Definition PWM_INTERRUPT (s : State) : State :=
  let leader_phase' := u16 (leader_phase s + phase_inc s) in
  let follower_offset_current' :=
    smooth (follower_offset_current s) (follower_offset_measured s) in
  let leader_value1 := sine leader_phase' in
  let leader_polarity1 := polarity leader_phase' in
  let accumulator' := follow leader_phase' follower_offset_current' in
  let follower_phase' := u16 accumulator' in
  let follower_value' := sine follower_phase' in
  let follower_polarity' := polarity follower_phase' in
  let leader_value2 := ring leader_value1 follower_value' in
  let leader_polarity2 := xorb leader_polarity1 follower_polarity' in
  let leader_value3 :=
    scale leader_value2 leader_polarity2
          (wrap_factor s) (neg_wrap_factor s) in
  let (leader_value4, leader_polarity4) :=
    fold leader_value3 leader_polarity2 in
  let output' := to_output leader_polarity4 leader_value4 in
  {| leader_polarity := leader_polarity4;
     follower_polarity := follower_polarity';
     output := output';
     leader_phase := leader_phase';
     phase_inc := phase_inc s;
     follower_offset_current := follower_offset_current';
     follower_offset_measured := follower_offset_measured s;
     wrap_factor := wrap_factor s;
     neg_wrap_factor := neg_wrap_factor s;
     follower_phase := follower_phase';
     leader_value := leader_value4;
     follower_value := follower_value';
     accumulator := accumulator';
     port := port s;
     portTime := portTime s;
     portRamp := portRamp s;
     midinote := midinote s;
     DIGITAL_OUT_PIN := DIGITAL_OUT_PIN s;
     PWM_VALUE := output' |}.

(** The intermediate values of one tick that the globals do not keep: the
    ring-modulated magnitude and polarity that enter the wave folder. *)
Definition ring_modulated (s : State) : Z * bool :=
  let leader_phase' := u16 (leader_phase s + phase_inc s) in
  let follower_phase' :=
    u16 (follow leader_phase'
           (smooth (follower_offset_current s)
                   (follower_offset_measured s))) in
  (ring (sine leader_phase') (sine follower_phase'),
   xorb (polarity leader_phase') (polarity follower_phase')).

(** ** Executable checks on the tables and sample states *)

(** Every entry is at most the next one. *)
Fixpoint nondecreasing (l : list Z) : bool :=
  match l with
  | a :: (b :: _) as rest => (a <=? b) && nondecreasing rest
  | _ => true
  end.

(** Every entry is a valid index into a table of [n] entries. *)
Definition indexes_below (n : Z) (l : list Z) : bool :=
  forallb (fun x => (0 <=? x) && (x <? n)) l.

(** The state after power-on with the oscillator and folder globals set. *)
Definition tick_state (phase inc cur meas wrap neg_wrap : Z) : State :=
  {| leader_polarity := false; follower_polarity := false; output := 0;
     leader_phase := phase; phase_inc := inc;
     follower_offset_current := cur; follower_offset_measured := meas;
     wrap_factor := wrap; neg_wrap_factor := neg_wrap;
     follower_phase := 0; leader_value := 0; follower_value := 0;
     accumulator := 0;
     port := false; portTime := 0; portRamp := mkRamp 0 0 0 NONE;
     midinote := 0;
     DIGITAL_OUT_PIN := false; PWM_VALUE := 0 |}.

(** A converter whose inputs hold still: the same codes on the two wrap
    inputs at every conversion, and zero elsewhere. *)
Definition wrap_inputs (cv knob : Z) (p : Pin) (k : nat) : Z :=
  match p with
  | A3 => cv
  | A0 => knob
  | _ => 0
  end.

(** A converter that holds one code on every pin. *)
Definition steady_inputs (code : Z) (p : Pin) (k : nat) : Z := code.

(** A wrap CV that rises during the pass: its four conversions return 300,
    300, 400 and 500, while the wrap knob stays on 500 and the follower
    inputs on zero. *)
Definition rising_wrap_cv (p : Pin) (k : nat) : Z :=
  match p with
  | A3 => nth k [300; 300; 400; 500] 500
  | A0 => 500
  | _ => 0
  end.

(** A follower CV that rises by one code between its two conversions, on a
    knob at 1000. *)
Definition rising_follower_cv (p : Pin) (k : nat) : Z :=
  match p with
  | A1 => nth k [23; 24] 24
  | A2 => 1000
  | _ => 0
  end.

Definition resting_update (r : rampInt) : Z * rampInt := (ramp_current r, r).

(** ** Runs of ticks, table checks and invariants *)

(** [n] consecutive interrupts with no pass of [loop] in between. *)
Definition ticks (n : nat) (s : State) : State := Nat.iter n PWM_INTERRUPT s.

(** The codes [0 .. n-1]. *)
Definition upto (n : nat) : list Z := map Z.of_nat (seq 0 n).

Definition values_between (lo hi : Z) (l : list Z) : bool :=
  forallb (fun x => (lo <=? x) && (x <=? hi)) l.

(** Each of the 60 steps from a note to the next raises the increment. *)
Definition notes_increasing : bool :=
  forallb (fun n => match mapMIDI n, mapMIDI (n + 1) with
                    | Some a, Some b => a <? b
                    | _, _ => false
                    end)
          (upto 60).

(** Twelve notes up doubles the increment, to within [tol]. *)
Definition octaves_double (tol : Z) : bool :=
  forallb (fun n => match mapMIDI n, mapMIDI (n + 12) with
                    | Some a, Some b => Z.abs (b - 2 * a) <=? tol
                    | _, _ => false
                    end)
          (upto 49).

(** A message as the MIDI library delivers it: three [byte] arguments. *)
Definition byte_message (msg : option MidiMessage) : Prop :=
  match msg with
  | None => True
  | Some (NoteOn a b c) | Some (NoteOff a b c) | Some (ControlChange a b c) =>
      is_u8 a /\ is_u8 b /\ is_u8 c
  end.

(** While portamento is on, the glide time is a positive multiple of 20
    that a byte can produce. *)
Definition glide_ready (s : State) : Prop :=
  port s = true -> 20 <= portTime s <= 5100.

(** Both follower offsets are 10-bit codes. *)
Definition offsets_in_range (s : State) : Prop :=
  0 <= follower_offset_current s <= 1023 /\
  0 <= follower_offset_measured s <= 1023.

(** The globals only the interrupt writes, and the ones only the
    control-rate side (the loop and the MIDI callbacks) writes. *)
Definition audio_globals (s : State) :=
  (leader_polarity s, follower_polarity s, output s, leader_phase s,
   follower_offset_current s, follower_phase s, leader_value s,
   follower_value s, accumulator s, PWM_VALUE s).

Definition control_globals (s : State) :=
  (phase_inc s, follower_offset_measured s, wrap_factor s,
   neg_wrap_factor s, port s, portTime s, portRamp s, midinote s,
   DIGITAL_OUT_PIN s).

(** * Properties *)

(** ** Machine integers and bit masks *)

Lemma u16_id (x : Z) : is_u16 x -> u16 x = x.
Proof. unfold is_u16, u16. intros H. apply Z.mod_small. exact H. Qed.

Lemma u8_id (x : Z) : is_u8 x -> u8 x = x.
Proof. unfold is_u8, u8. intros H. apply Z.mod_small. exact H. Qed.

Lemma u16_range (x : Z) : is_u16 (u16 x).
Proof. unfold is_u16, u16. apply Z.mod_pos_bound. lia. Qed.

Lemma land_255 (x : Z) : Z.land x 255 = x mod 256.
Proof. change 255 with (Z.ones 8). rewrite Z.land_ones by lia. reflexivity. Qed.

Lemma land_127 (x : Z) : Z.land x 127 = x mod 128.
Proof. change 127 with (Z.ones 7). rewrite Z.land_ones by lia. reflexivity. Qed.

Lemma land_65535 (x : Z) : Z.land x 65535 = x mod 65536.
Proof. change 65535 with (Z.ones 16). rewrite Z.land_ones by lia. reflexivity. Qed.

(** A value that fits in a byte has none of the bits 8 to 15. *)
Lemma land_high_byte (x : Z) : 0 <= x < 256 -> Z.land x 65280 = 0.
Proof.
  intros Hx. apply Z.bits_inj'. intros n Hn.
  rewrite Z.land_spec, Z.bits_0.
  destruct (Z.ltb_spec n 8) as [Hlt | Hge].
  - change 65280 with (Z.shiftl 255 8).
    rewrite (Z.shiftl_spec_low 255 8 n) by assumption.
    apply andb_false_r.
  - assert (Hhi : Z.shiftr x 8 = 0).
    { rewrite Z.shiftr_div_pow2 by lia. apply Z.div_small. exact Hx. }
    replace n with ((n - 8) + 8) by lia.
    rewrite <- Z.shiftr_spec by lia.
    rewrite Hhi, Z.bits_0. reflexivity.
Qed.

Lemma rescale_div (v : Z) : rescale v = ((v * 4) mod 65536) / 256.
Proof.
  unfold rescale, u16.
  rewrite Z.shiftl_mul_pow2 by lia.
  rewrite Z.shiftr_div_pow2 by lia.
  reflexivity.
Qed.

Lemma rescale_byte (v : Z) : 0 <= rescale v <= 255.
Proof.
  rewrite rescale_div.
  pose proof (Z.mod_pos_bound (v * 4) 65536 ltac:(lia)) as Hm.
  split.
  - apply Z.div_pos; lia.
  - apply Z.lt_succ_r. apply Z.div_lt_upper_bound; lia.
Qed.

(** ** Table lookups *)

Lemma pgm_read_in_bounds (table : list Z) (i : Z) :
  0 <= i < Z.of_nat (length table) ->
  exists x, pgm_read_word_near table i = Some x /\ In x table.
Proof.
  intros [Hlo Hhi]. unfold pgm_read_word_near.
  destruct (Z.ltb_spec i 0) as [Hneg | _]; [lia |].
  destruct (nth_error table (Z.to_nat i)) as [x |] eqn:Hnth.
  - exists x. split; [reflexivity |]. eapply nth_error_In. exact Hnth.
  - apply nth_error_None in Hnth. lia.
Qed.

Lemma nondecreasing_adjacent (l : list Z) :
  nondecreasing l = true ->
  forall (i : nat) (a b : Z),
    nth_error l i = Some a -> nth_error l (S i) = Some b -> a <= b.
Proof.
  induction l as [| x rest IH]; intros Hsorted i a b Ha Hb.
  - destruct i; discriminate.
  - destruct rest as [| y rest'].
    + destruct i; simpl in Hb; [discriminate | destruct i; discriminate].
    + simpl in Hsorted. apply andb_true_iff in Hsorted.
      destruct Hsorted as [Hxy Hrest].
      destruct i as [| i'].
      * simpl in Ha, Hb. injection Ha as <-. injection Hb as <-.
        apply Z.leb_le. exact Hxy.
      * apply (IH Hrest i' a b); assumption.
Qed.

Lemma freqTable_length : length freqTable = 1024%nat.
Proof. vm_compute. reflexivity. Qed.

Lemma midiTable_length : length midiTable = 61%nat.
Proof. vm_compute. reflexivity. Qed.

Lemma freqTable_sorted : nondecreasing freqTable = true.
Proof. vm_compute. reflexivity. Qed.

Lemma midiTable_indexes : indexes_below 1024 midiTable = true.
Proof. vm_compute. reflexivity. Qed.

(** C10: the code-to-phase-increment table has 1024 entries and is
    monotonically non-decreasing: for every code [c] in [0,1022] the
    lookups of [c] and [c + 1] both succeed and the first is at most the
    second. *)
Theorem freqTable_monotone (c : Z) (Hc : 0 <= c <= 1022) :
  length freqTable = 1024%nat /\
  exists a b : Z,
    mapFreq c = Some a /\ mapFreq (c + 1) = Some b /\ a <= b.
Proof.
  split; [exact freqTable_length |].
  destruct (pgm_read_in_bounds freqTable c) as [a [Ha _]];
    [rewrite freqTable_length; lia |].
  destruct (pgm_read_in_bounds freqTable (c + 1)) as [b [Hb _]];
    [rewrite freqTable_length; lia |].
  exists a, b. unfold mapFreq. repeat split; try assumption.
  unfold pgm_read_word_near in Ha, Hb.
  destruct (Z.ltb_spec c 0); [lia |].
  destruct (Z.ltb_spec (c + 1) 0); [lia |].
  replace (Z.to_nat (c + 1)) with (S (Z.to_nat c)) in Hb by lia.
  exact (nondecreasing_adjacent freqTable freqTable_sorted _ a b Ha Hb).
Qed.

Lemma freqTable_monotone_witness :
  length freqTable = 1024%nat /\
  exists a b : Z,
    mapFreq 511 = Some a /\ mapFreq (511 + 1) = Some b /\ a <= b.
Proof. apply (freqTable_monotone 511). lia. Defined.

(** ** The MIDI callbacks *)

Lemma clamp_note (pitch : Z) :
  min 84 pitch = Z.min 84 pitch /\
  max 24 (min 84 pitch) = Z.max 24 (Z.min 84 pitch).
Proof.
  unfold min, max.
  destruct (Z.ltb_spec 84 pitch);
    destruct (Z.gtb_spec 24 84);
    destruct (Z.gtb_spec 24 pitch); lia.
Qed.

Lemma midinote_range (pitch : Z) :
  0 <= Z.max 24 (Z.min 84 pitch) - 24 <= 60.
Proof. lia. Qed.

Lemma ramp_target_go4 (val dur : Z) (m : ramp_mode) (l : loop_mode)
    (r : rampInt) :
  ramp_target (go4 val dur m l r) = val.
Proof.
  unfold go4. destruct m; [reflexivity |].
  destruct (dur =? 0); reflexivity.
Qed.

(** The note lookup succeeds on every note offset of the table. *)
Lemma mapMIDI_in_bounds (note : Z) :
  0 <= note <= 60 ->
  exists idx inc : Z,
    pgm_read_word_near midiTable note = Some idx /\
    0 <= idx <= 1023 /\
    pgm_read_word_near freqTable idx = Some inc /\
    mapMIDI note = Some inc.
Proof.
  intros Hnote.
  destruct (pgm_read_in_bounds midiTable note) as [idx [Hidx Hin]];
    [rewrite midiTable_length; lia |].
  pose proof midiTable_indexes as Hall. unfold indexes_below in Hall.
  rewrite forallb_forall in Hall. specialize (Hall idx Hin).
  apply andb_true_iff in Hall. destruct Hall as [Hlo Hhi].
  apply Z.leb_le in Hlo. apply Z.ltb_lt in Hhi.
  destruct (pgm_read_in_bounds freqTable idx) as [inc [Hinc _]];
    [rewrite freqTable_length; lia |].
  exists idx, inc. unfold mapMIDI. rewrite Hidx.
  repeat split; try assumption; lia.
Qed.

(** The note-on callback never reads past a table, whatever the pitch. *)
Lemma handleNoteOn_total (channel pitch velocity : Z) (s : State) :
  exists s', handleNoteOn channel pitch velocity s = Some s'.
Proof.
  unfold handleNoteOn.
  destruct (clamp_note pitch) as [_ ->].
  rewrite u16_id by (pose proof (midinote_range pitch); unfold is_u16; lia).
  destruct (mapMIDI_in_bounds _ (midinote_range pitch))
    as [idx [inc [_ [_ [_ ->]]]]].
  eexists. reflexivity.
Qed.

(** C4: for every note-on with pitch in [0,127], [handleNoteOn] returns a
    state whose [midinote] is the pitch clamped to [24,84] minus 24, which
    lies in [0,60]; the index read from the 61-entry [midiTable] is at most
    1023, so the read of the 1024-entry [freqTable] is in bounds too; the
    ramp target is [mapMIDI midinote]; and the result is the one the clamped
    pitch gives. *)
Theorem handleNoteOn_clamps (channel pitch velocity : Z) (s : State)
    (Hp : 0 <= pitch <= 127) :
  length midiTable = 61%nat /\ length freqTable = 1024%nat /\
  exists (s' : State) (idx inc : Z),
    handleNoteOn channel pitch velocity s = Some s' /\
    midinote s' = Z.max 24 (Z.min 84 pitch) - 24 /\
    0 <= midinote s' <= 60 /\
    pgm_read_word_near midiTable (midinote s') = Some idx /\
    0 <= idx <= 1023 /\
    pgm_read_word_near freqTable idx = Some inc /\
    mapMIDI (midinote s') = Some inc /\
    ramp_target (portRamp s') = inc /\
    handleNoteOn channel (Z.max 24 (Z.min 84 pitch)) velocity s = Some s'.
Proof.
  split; [exact midiTable_length |]. split; [exact freqTable_length |].
  pose proof (midinote_range pitch) as Hrange.
  destruct (mapMIDI_in_bounds _ Hrange) as [idx [inc [Hidx [Hb [Hinc Hmap]]]]].
  assert (Hsame : forall p, Z.max 24 (Z.min 84 p) = Z.max 24 (Z.min 84 pitch) ->
            handleNoteOn channel p velocity s =
            Some (set_note true (Z.max 24 (Z.min 84 pitch) - 24)
                    (if port s
                     then go4 inc (portTime s) LINEAR ONCEFORWARD (portRamp s)
                     else go inc (portRamp s)) s)).
  { intros p Hpq. unfold handleNoteOn.
    destruct (clamp_note p) as [_ ->]. rewrite Hpq.
    rewrite u16_id by (unfold is_u16; lia).
    rewrite Hmap. reflexivity. }
  eexists. exists idx, inc.
  split; [apply Hsame; reflexivity |].
  cbn [midinote portRamp set_note].
  repeat split; try assumption; try lia.
  - destruct (port s); unfold go; apply ramp_target_go4.
  - apply Hsame. lia.
Qed.

Lemma handleNoteOn_clamps_witness :
  length midiTable = 61%nat /\ length freqTable = 1024%nat /\
  exists (s' : State) (idx inc : Z),
    handleNoteOn 0 100 64 power_on = Some s' /\
    midinote s' = Z.max 24 (Z.min 84 100) - 24 /\
    0 <= midinote s' <= 60 /\
    pgm_read_word_near midiTable (midinote s') = Some idx /\
    0 <= idx <= 1023 /\
    pgm_read_word_near freqTable idx = Some inc /\
    mapMIDI (midinote s') = Some inc /\
    ramp_target (portRamp s') = inc /\
    handleNoteOn 0 (Z.max 24 (Z.min 84 100)) 64 power_on = Some s'.
Proof. apply (handleNoteOn_clamps 0 100 64 power_on). lia. Defined.

(** C9: for every control change with a value in [0,127]: controller 5
    with value 0 clears [port] and keeps [portTime]; controller 5 with a
    positive value sets [port] and makes [portTime] 20 times the value; any
    other controller leaves the whole state as it was; and in every case
    nothing but [port] and [portTime] changes. *)
Theorem handleControlChange_portamento (channel num val : Z) (s : State)
    (Hval : 0 <= val <= 127) :
  let s' := handleControlChange channel num val s in
  (num = 5 -> val = 0 -> port s' = false /\ portTime s' = portTime s) /\
  (num = 5 -> val > 0 -> port s' = true /\ portTime s' = 20 * val) /\
  (num <> 5 -> s' = s) /\
  s' = set_port (port s') (portTime s') s.
Proof.
  unfold handleControlChange.
  destruct (Z.eqb_spec num 5) as [Hnum | Hnum];
    [destruct (Z.eqb_spec val 0) as [Hzero | Hpos] |];
    cbv zeta; cbn [port portTime set_port].
  - split; [intros _ _; split; reflexivity |].
    split; [intros _ Hgt; lia |].
    split; [intros Hne; contradiction | reflexivity].
  - rewrite u16_id by (unfold is_u16; lia).
    split; [intros _ Hz; contradiction |].
    split; [intros _ _; split; reflexivity |].
    split; [intros Hne; contradiction | reflexivity].
  - split; [intros Heq; contradiction |].
    split; [intros Heq; contradiction |].
    split; [reflexivity | destruct s; reflexivity].
Qed.

Lemma handleControlChange_portamento_witness :
  let s' := handleControlChange 0 5 10 power_on in
  (5 = 5 -> 10 = 0 -> port s' = false /\ portTime s' = portTime power_on) /\
  (5 = 5 -> 10 > 0 -> port s' = true /\ portTime s' = 20 * 10) /\
  (5 <> 5 -> s' = power_on) /\
  s' = set_port (port s') (portTime s') power_on.
Proof. apply (handleControlChange_portamento 0 5 10 power_on). lia. Defined.

(** ** The control-rate loop *)

Lemma MIDI_read_total (msg : option MidiMessage) (s : State) :
  exists s1, MIDI_read msg s = Some s1.
Proof.
  destruct msg as [[c p v | c p v | c n v] |]; simpl.
  - apply handleNoteOn_total.
  - eexists; reflexivity.
  - eexists; reflexivity.
  - eexists; reflexivity.
Qed.

Lemma neg_wrap_factor_formula (w : Z) :
  is_u16 w ->
  u16 (max (Z.shiftr w 1) 64) = Z.max (w / 2) 64.
Proof.
  unfold is_u16. intros Hw.
  rewrite Z.shiftr_div_pow2 by lia. change (2 ^ 1) with 2.
  assert (Hhalf : 0 <= w / 2 <= 32767)
    by (Z.to_euclidean_division_equations; lia).
  unfold max. destruct (Z.gtb_spec (w / 2) 64);
    rewrite u16_id by (unfold is_u16; lia); lia.
Qed.

Lemma loop_result (analogRead : Pin -> nat -> Z)
    (update : rampInt -> Z * rampInt) (msg : option MidiMessage)
    (s : State) :
  exists s' : State,
    loop analogRead update msg s = Some s' /\
    audio_globals s' = audio_globals s /\
    follower_offset_measured s' =
      u16 (fst (min_1023_sum analogRead FOLLOWER_CV FOLLOWER_KNOB 0)) /\
    wrap_factor s' = u16 (wrap_from_inputs analogRead) /\
    neg_wrap_factor s' = u16 (max (Z.shiftr (wrap_factor s') 1) 64).
Proof.
  destruct (MIDI_read_total msg s) as [s1 Hread].
  assert (Haudio : audio_globals s1 = audio_globals s).
  { destruct msg as [[c p v | c p v | c n v] |]; simpl in Hread.
    - unfold handleNoteOn in Hread.
      destruct (mapMIDI _); [| discriminate].
      injection Hread as <-. reflexivity.
    - injection Hread as <-. reflexivity.
    - injection Hread as <-. unfold handleControlChange.
      destruct (n =? 5); [destruct (v =? 0) |]; reflexivity.
    - injection Hread as <-. reflexivity. }
  unfold loop. rewrite Hread.
  destruct (update (portRamp s1)) as [inc ramp'].
  eexists. split; [reflexivity |].
  split; [rewrite <- Haudio; reflexivity |].
  repeat split; reflexivity.
Qed.

(** C3 at a pass the code can meet: the wrap knob rests on 500 while the
    wrap CV rises, its four conversions returning 300, 300, 400 and 500.
    Every code is a 10-bit code and every sum is at most 1023, but the
    [min] macros compare one conversion and store a later one: the outer
    comparison sees [64 + 800/2 = 464 < 511] and the value stored is
    [64 + 1000/2 = 564], with [neg_wrap_factor = 282].  Both leave the
    ranges [64,511] and [64,255], and no control value [v] gives
    [wrap_factor = min (64 + v/2) 511]. *)
Theorem loop_thresholds_unclamped :
  (forall (p : Pin) (k : nat), 0 <= rising_wrap_cv p k <= 1023) /\
  (forall k : nat, 0 <= read_sum rising_wrap_cv WRAP_CV WRAP_KNOB k <= 1023) /\
  exists s' : State,
    loop rising_wrap_cv resting_update None power_on = Some s' /\
    wrap_factor s' = 564 /\
    neg_wrap_factor s' = 282 /\
    (forall v : Z, wrap_factor s' <> Z.min (64 + v / 2) 511).
Proof.
  assert (Hcodes : forall (p : Pin) (k : nat), 0 <= rising_wrap_cv p k <= 1023).
  { intros p k. destruct p; simpl; try lia.
    do 4 (destruct k as [| k]; [simpl; lia |]). simpl.
    destruct k; lia. }
  split; [exact Hcodes |].
  split.
  { intros k. unfold read_sum, WRAP_CV, WRAP_KNOB. simpl.
    do 4 (destruct k as [| k]; [simpl; lia |]). simpl.
    destruct k; lia. }
  eexists. split; [vm_compute; reflexivity |].
  cbn [wrap_factor neg_wrap_factor].
  split; [reflexivity |]. split; [reflexivity |].
  intros v. pose proof (Z.le_min_r (64 + v / 2) 511). lia.
Qed.

(** ** The audio-rate interrupt, stage by stage *)

Section Tick.

Variable s : State.

Lemma tick_leader_phase :
  leader_phase (PWM_INTERRUPT s) = u16 (leader_phase s + phase_inc s).
Proof. unfold PWM_INTERRUPT. destruct (fold _ _). reflexivity. Qed.

Lemma tick_offset :
  follower_offset_current (PWM_INTERRUPT s) =
    smooth (follower_offset_current s) (follower_offset_measured s) /\
  follower_offset_measured (PWM_INTERRUPT s) = follower_offset_measured s.
Proof. unfold PWM_INTERRUPT. destruct (fold _ _). split; reflexivity. Qed.

Lemma tick_follower_phase :
  accumulator (PWM_INTERRUPT s) =
    follow (leader_phase (PWM_INTERRUPT s))
           (follower_offset_current (PWM_INTERRUPT s)) /\
  follower_phase (PWM_INTERRUPT s) = u16 (accumulator (PWM_INTERRUPT s)).
Proof. unfold PWM_INTERRUPT. destruct (fold _ _). split; reflexivity. Qed.

Lemma tick_polarities :
  xorb (polarity (leader_phase (PWM_INTERRUPT s)))
       (polarity (follower_phase (PWM_INTERRUPT s))) =
  snd (ring_modulated s).
Proof. unfold PWM_INTERRUPT. destruct (fold _ _). reflexivity. Qed.

Lemma tick_folded :
  (leader_value (PWM_INTERRUPT s), leader_polarity (PWM_INTERRUPT s)) =
  fold (scale (fst (ring_modulated s)) (snd (ring_modulated s))
              (wrap_factor s) (neg_wrap_factor s))
       (snd (ring_modulated s)).
Proof.
  unfold PWM_INTERRUPT, ring_modulated. cbn [fst snd].
  destruct (fold _ _) as [v p]. reflexivity.
Qed.

Lemma tick_output :
  output (PWM_INTERRUPT s) =
    to_output (leader_polarity (PWM_INTERRUPT s))
              (leader_value (PWM_INTERRUPT s)) /\
  PWM_VALUE (PWM_INTERRUPT s) = output (PWM_INTERRUPT s).
Proof. unfold PWM_INTERRUPT. destruct (fold _ _). split; reflexivity. Qed.

(** What one tick leaves alone: everything the control-rate side owns. *)
Lemma tick_frame :
  phase_inc (PWM_INTERRUPT s) = phase_inc s /\
  wrap_factor (PWM_INTERRUPT s) = wrap_factor s /\
  neg_wrap_factor (PWM_INTERRUPT s) = neg_wrap_factor s /\
  port (PWM_INTERRUPT s) = port s /\
  portTime (PWM_INTERRUPT s) = portTime s /\
  portRamp (PWM_INTERRUPT s) = portRamp s /\
  midinote (PWM_INTERRUPT s) = midinote s /\
  DIGITAL_OUT_PIN (PWM_INTERRUPT s) = DIGITAL_OUT_PIN s.
Proof.
  unfold PWM_INTERRUPT. destruct (fold _ _). repeat split; reflexivity.
Qed.

Lemma tick_follower_value :
  follower_value (PWM_INTERRUPT s) = sine (follower_phase (PWM_INTERRUPT s)).
Proof. unfold PWM_INTERRUPT. destruct (fold _ _). reflexivity. Qed.

End Tick.

(** *** Follower offset smoothing *)

Lemma smooth_step (cur meas : Z) :
  is_u16 cur -> is_u16 meas ->
  smooth cur meas =
    if cur <? meas then cur + 1 else if cur >? meas then cur - 1 else cur.
Proof.
  unfold smooth, is_u16. intros Hc Hm.
  destruct (Z.ltb_spec cur meas) as [Hlt | Hge].
  - apply u16_id. unfold is_u16. lia.
  - destruct (Z.gtb_spec cur meas) as [Hgt | Hle]; [| reflexivity].
    apply u16_id. unfold is_u16. lia.
Qed.

(** C5: one audio tick leaves [follower_offset_measured] alone and moves
    [follower_offset_current] by exactly 1 toward it when the two differ,
    not at all when they are equal; so their distance shrinks by at most 1,
    never grows, and the current value never passes the measured one. *)
Theorem offset_smoothing (s : State)
    (Hcur : is_u16 (follower_offset_current s))
    (Hmeas : is_u16 (follower_offset_measured s)) :
  let cur := follower_offset_current s in
  let meas := follower_offset_measured s in
  let cur' := follower_offset_current (PWM_INTERRUPT s) in
  follower_offset_measured (PWM_INTERRUPT s) = meas /\
  (cur < meas -> cur' = cur + 1) /\
  (cur > meas -> cur' = cur - 1) /\
  (cur = meas -> cur' = cur) /\
  Z.abs (cur - meas) - 1 <= Z.abs (cur' - meas) <= Z.abs (cur - meas) /\
  (cur <= meas -> cur' <= meas) /\
  (cur >= meas -> cur' >= meas).
Proof.
  intros cur meas cur'. subst cur'.
  destruct (tick_offset s) as [-> ->].
  rewrite (smooth_step _ _ Hcur Hmeas).
  fold cur meas.
  destruct (Z.ltb_spec cur meas) as [Hlt | Hge];
    [| destruct (Z.gtb_spec cur meas) as [Hgt | Hle]];
    repeat split; lia.
Qed.

Lemma offset_smoothing_witness :
  let cur := 5 in
  let meas := 9 in
  let cur' := follower_offset_current (PWM_INTERRUPT (tick_state 0 69 5 9 64 64)) in
  follower_offset_measured (PWM_INTERRUPT (tick_state 0 69 5 9 64 64)) = meas /\
  (cur < meas -> cur' = cur + 1) /\
  (cur > meas -> cur' = cur - 1) /\
  (cur = meas -> cur' = cur) /\
  Z.abs (cur - meas) - 1 <= Z.abs (cur' - meas) <= Z.abs (cur - meas) /\
  (cur <= meas -> cur' <= meas) /\
  (cur >= meas -> cur' >= meas).
Proof.
  apply (offset_smoothing (tick_state 0 69 5 9 64 64));
    unfold is_u16; simpl; lia.
Defined.

(** *** Hard sync *)

(** With a 16-bit phase and a 16-bit offset nothing overflows the 32-bit
    accumulator, so the follower phase is the exact sum, cut to 16 bits. *)
Lemma follow_exact (phase offset : Z) :
  is_u16 phase -> is_u16 offset ->
  u32 (phase * offset) = phase * offset /\
  u32 (Z.shiftr (phase * offset) 8 + phase) =
    Z.shiftr (phase * offset) 8 + phase /\
  follow phase offset = (phase + Z.shiftr (phase * offset) 8) mod 65536.
Proof.
  unfold is_u16. intros Hp Ho.
  assert (Hprod : 0 <= phase * offset < 4294967296) by nia.
  assert (Hmul : u32 (phase * offset) = phase * offset)
    by (apply Z.mod_small; exact Hprod).
  assert (Hshift : 0 <= Z.shiftr (phase * offset) 8 < 16777216).
  { rewrite Z.shiftr_div_pow2 by lia. change (2 ^ 8) with 256.
    split; [apply Z.div_pos; lia | apply Z.div_lt_upper_bound; lia]. }
  assert (Hadd : u32 (Z.shiftr (phase * offset) 8 + phase) =
                 Z.shiftr (phase * offset) 8 + phase)
    by (apply Z.mod_small; lia).
  split; [exact Hmul |]. split; [exact Hadd |].
  unfold follow.
  replace (u32 phase) with phase by (symmetry; apply Z.mod_small; lia).
  rewrite Hmul, Hadd, land_65535.
  f_equal. lia.
Qed.

Lemma follow_u16 (phase offset : Z) : is_u16 (follow phase offset).
Proof.
  unfold follow, is_u16. rewrite land_65535. apply Z.mod_pos_bound. lia.
Qed.

(** C2: for every 16-bit leader phase and every follower offset in
    [0,1023], the product and the sum that follows fit the 32-bit
    accumulator unchanged and the follower computation yields
    [(phase + ((phase * offset) >> 8)) mod 65536]; and on every tick that
    advances the leader to that phase and smooths the offset to that value,
    the interrupt stores exactly this in [accumulator] and in
    [follower_phase]. *)
Theorem follower_phase_hard_sync (phase offset : Z)
    (Hphase : is_u16 phase) (Hoffset : 0 <= offset <= 1023) :
  u32 (phase * offset) = phase * offset /\
  u32 (Z.shiftr (phase * offset) 8 + phase) =
    Z.shiftr (phase * offset) 8 + phase /\
  follow phase offset = (phase + Z.shiftr (phase * offset) 8) mod 65536 /\
  forall s : State,
    u16 (leader_phase s + phase_inc s) = phase ->
    smooth (follower_offset_current s) (follower_offset_measured s) = offset ->
    leader_phase (PWM_INTERRUPT s) = phase /\
    follower_offset_current (PWM_INTERRUPT s) = offset /\
    accumulator (PWM_INTERRUPT s) =
      (phase + Z.shiftr (phase * offset) 8) mod 65536 /\
    follower_phase (PWM_INTERRUPT s) =
      (phase + Z.shiftr (phase * offset) 8) mod 65536.
Proof.
  assert (Hoff16 : is_u16 offset) by (unfold is_u16; lia).
  destruct (follow_exact phase offset Hphase Hoff16) as [Hmul [Hadd Hfollow]].
  split; [exact Hmul |]. split; [exact Hadd |]. split; [exact Hfollow |].
  intros s Hin_phase Hin_offset.
  assert (Hlp : leader_phase (PWM_INTERRUPT s) = phase)
    by (rewrite tick_leader_phase; exact Hin_phase).
  assert (Hcur : follower_offset_current (PWM_INTERRUPT s) = offset)
    by (destruct (tick_offset s) as [-> _]; exact Hin_offset).
  destruct (tick_follower_phase s) as [Hacc Hfp].
  rewrite Hlp, Hcur in Hacc.
  split; [exact Hlp |]. split; [exact Hcur |].
  split; [rewrite Hacc; exact Hfollow |].
  rewrite Hfp, Hacc, u16_id by apply follow_u16.
  exact Hfollow.
Qed.

Lemma follower_phase_hard_sync_witness :
  u32 (42188 * 1023) = 42188 * 1023 /\
  u32 (Z.shiftr (42188 * 1023) 8 + 42188) =
    Z.shiftr (42188 * 1023) 8 + 42188 /\
  follow 42188 1023 = (42188 + Z.shiftr (42188 * 1023) 8) mod 65536 /\
  forall s : State,
    u16 (leader_phase s + phase_inc s) = 42188 ->
    smooth (follower_offset_current s) (follower_offset_measured s) = 1023 ->
    leader_phase (PWM_INTERRUPT s) = 42188 /\
    follower_offset_current (PWM_INTERRUPT s) = 1023 /\
    accumulator (PWM_INTERRUPT s) =
      (42188 + Z.shiftr (42188 * 1023) 8) mod 65536 /\
    follower_phase (PWM_INTERRUPT s) =
      (42188 + Z.shiftr (42188 * 1023) 8) mod 65536.
Proof.
  apply (follower_phase_hard_sync 42188 1023).
  - unfold is_u16. lia.
  - lia.
Defined.

(** The tick from leader phase 40000 with increment 2188 and the offset
    one step below a measured 1023 is such a tick: it stores follower
    phase 14167. *)
Example follower_phase_at_full_offset :
  let s := tick_state 40000 2188 1022 1023 64 64 in
  u16 (leader_phase s + phase_inc s) = 42188 /\
  smooth (follower_offset_current s) (follower_offset_measured s) = 1023 /\
  follower_phase (PWM_INTERRUPT s) = 14167 /\
  (42188 + Z.shiftr (42188 * 1023) 8) mod 65536 = 14167.
Proof. vm_compute. repeat split; reflexivity. Qed.

(** *** The wave folder *)

Lemma multi_fold_byte (v : Z) (pol : bool) :
  0 <= v <= 255 -> multi_fold v pol = (v, pol).
Proof.
  intros Hv. unfold multi_fold.
  rewrite land_high_byte by lia. reflexivity.
Qed.

Lemma fold_back_range (v : Z) : 0 <= v -> 0 <= fold_back v <= 127.
Proof.
  intros Hv. unfold fold_back.
  destruct (Z.gtb_spec v 127) as [Hgt | Hle]; [| lia].
  rewrite land_127.
  pose proof (Z.mod_pos_bound v 128 ltac:(lia)) as Hm.
  rewrite u16_id by (unfold is_u16; lia). lia.
Qed.

Lemma scale_byte (m : Z) (pol : bool) (wrap neg_wrap : Z) :
  0 <= scale m pol wrap neg_wrap <= 255.
Proof. unfold scale. apply rescale_byte. Qed.

(** C6: for every 16-bit value, [v <<= 2; v >>= 8] leaves
    [((v * 4) mod 65536) >> 8], which is at most 255; so none of the bits
    8 to 15 that the multi-fold test looks at is set, the branch is not
    taken on the scaled value, and after every tick the polarity is still
    the exclusive-or of the two oscillator polarities. *)
Theorem rescale_disables_multi_fold (v : Z) (Hv : is_u16 v) :
  rescale v = Z.shiftr ((v * 4) mod 65536) 8 /\
  0 <= rescale v <= 255 /\
  Z.land (rescale v) 65280 = 0 /\
  (forall pol : bool, multi_fold (rescale v) pol = (rescale v, pol)) /\
  (forall (m : Z) (p : bool) (wrap neg_wrap : Z),
     to_bool (Z.land (scale m p wrap neg_wrap) 65280) = false) /\
  (forall s : State,
     leader_polarity (PWM_INTERRUPT s) =
     xorb (polarity (leader_phase (PWM_INTERRUPT s)))
          (polarity (follower_phase (PWM_INTERRUPT s)))).
Proof.
  pose proof (rescale_byte v) as Hbyte.
  split.
  { rewrite rescale_div. rewrite Z.shiftr_div_pow2 by lia. reflexivity. }
  split; [exact Hbyte |].
  split; [apply land_high_byte; lia |].
  split; [intros pol; apply multi_fold_byte; exact Hbyte |].
  split.
  { intros m p wrap neg_wrap.
    rewrite land_high_byte by (pose proof (scale_byte m p wrap neg_wrap); lia).
    reflexivity. }
  intros s. rewrite tick_polarities.
  pose proof (tick_folded s) as Hfold. unfold fold in Hfold.
  rewrite multi_fold_byte in Hfold by apply scale_byte.
  apply (f_equal snd) in Hfold. cbn [snd] in Hfold. exact Hfold.
Qed.

Lemma rescale_disables_multi_fold_witness :
  rescale 32130 = Z.shiftr ((32130 * 4) mod 65536) 8 /\
  0 <= rescale 32130 <= 255 /\
  Z.land (rescale 32130) 65280 = 0 /\
  (forall pol : bool, multi_fold (rescale 32130) pol = (rescale 32130, pol)) /\
  (forall (m : Z) (p : bool) (wrap neg_wrap : Z),
     to_bool (Z.land (scale m p wrap neg_wrap) 65280) = false) /\
  (forall s : State,
     leader_polarity (PWM_INTERRUPT s) =
     xorb (polarity (leader_phase (PWM_INTERRUPT s)))
          (polarity (follower_phase (PWM_INTERRUPT s)))).
Proof. apply (rescale_disables_multi_fold 32130). unfold is_u16. lia. Defined.

(** C8: on a magnitude already in [0,127] the folding step, the
    multi-fold test followed by the reflection of values above 127, gives
    back the same magnitude and the same polarity. *)
Theorem fold_in_range (v : Z) (pol : bool) (Hv : 0 <= v <= 127) :
  fold v pol = (v, pol).
Proof.
  unfold fold. rewrite multi_fold_byte by lia.
  unfold fold_back.
  destruct (Z.gtb_spec v 127) as [Hgt | Hle]; [lia | reflexivity].
Qed.

Lemma fold_in_range_witness : fold 100 true = (100, true).
Proof. apply (fold_in_range 100 true). lia. Defined.

Lemma tick_magnitude (s : State) :
  0 <= leader_value (PWM_INTERRUPT s) <= 127.
Proof.
  pose proof (tick_folded s) as Hfold. unfold fold in Hfold.
  rewrite multi_fold_byte in Hfold by apply scale_byte.
  apply (f_equal fst) in Hfold. cbn [fst] in Hfold. rewrite Hfold.
  apply fold_back_range. apply scale_byte.
Qed.

Lemma to_output_exact (pol : bool) (v : Z) :
  0 <= v <= 127 ->
  to_output pol v = if pol then 127 - v else 128 + v.
Proof.
  intros Hv. unfold to_output.
  destruct pol; apply u8_id; unfold is_u8; lia.
Qed.

(** C7, as the code has it: after every tick the folded magnitude is at
    most 127, the sample is [128 + magnitude] (in [128,255]) when the
    polarity flag is clear and [127 - magnitude] (in [0,127]) when it is
    set, without 8-bit wrap-around, so it lies in [0,255] and is what the
    PWM register receives; a magnitude of 0 gives 128 with the flag clear
    and 127 with the flag set, the two codes on either side of the centre. *)
Theorem output_assembly (s : State) :
  let s' := PWM_INTERRUPT s in
  0 <= leader_value s' <= 127 /\
  output s' = (if leader_polarity s' then 127 - leader_value s'
               else 128 + leader_value s') /\
  (leader_polarity s' = false -> 128 <= output s' <= 255) /\
  (leader_polarity s' = true -> 0 <= output s' <= 127) /\
  0 <= output s' <= 255 /\
  PWM_VALUE s' = output s' /\
  (leader_value s' = 0 ->
   output s' = if leader_polarity s' then 127 else 128).
Proof.
  intros s'. subst s'.
  pose proof (tick_magnitude s) as Hmag.
  destruct (tick_output s) as [Hout Hpwm].
  rewrite Hpwm, Hout, (to_output_exact _ _ Hmag).
  destruct (leader_polarity (PWM_INTERRUPT s));
    repeat split; try lia; try discriminate.
  all: intros ->; reflexivity.
Qed.

Lemma output_assembly_witness :
  let s' := PWM_INTERRUPT (tick_state 32768 0 256 256 64 64) in
  0 <= leader_value s' <= 127 /\
  output s' = (if leader_polarity s' then 127 - leader_value s'
               else 128 + leader_value s') /\
  (leader_polarity s' = false -> 128 <= output s' <= 255) /\
  (leader_polarity s' = true -> 0 <= output s' <= 127) /\
  0 <= output s' <= 255 /\
  PWM_VALUE s' = output s' /\
  (leader_value s' = 0 ->
   output s' = if leader_polarity s' then 127 else 128).
Proof. apply (output_assembly (tick_state 32768 0 256 256 64 64)). Defined.

(** C7, as stated, fails: no single midpoint code is the output of every
    tick of magnitude 0.  With the leader at phase 32768 and the follower
    offset at 256 the magnitude is 0 and the sample is 127; with both
    phases at 0 the magnitude is 0 and the sample is 128. *)
Lemma silent_sample_not_unique :
  ~ exists mid : Z,
      forall s : State,
        leader_value (PWM_INTERRUPT s) = 0 -> output (PWM_INTERRUPT s) = mid.
Proof.
  intros [mid Hmid].
  pose proof (Hmid (tick_state 32768 0 256 256 64 64) eq_refl) as Hlow.
  pose proof (Hmid (tick_state 0 0 0 0 64 64) eq_refl) as Hhigh.
  vm_compute in Hlow, Hhigh. congruence.
Qed.

(** C1 at a tick the code can reach: leader phase 16256, follower offset
    0, thresholds 511 and 255.  The ring-modulated magnitude is 126 with
    the polarity clear, so it is scaled by [neg_wrap_factor]; the scaled
    value [(126 * 255) >> 6 = 502] has bit 8 set, and the folding step
    applied to 502 would invert the polarity and give sample 118.  The
    16-bit [<<= 2] has already dropped that bit: the interrupt folds 246,
    keeps the polarity and writes 137. *)
Theorem multi_fold_inversion_lost :
  let s := tick_state 16187 69 0 0 511 255 in
  leader_phase (PWM_INTERRUPT s) = 16256 /\
  ring_modulated s = (126, false) /\
  Z.shiftr (126 * neg_wrap_factor s) 6 = 502 /\
  Z.testbit 502 8 = true /\
  fold 502 false = (9, true) /\
  to_output true 9 = 118 /\
  scale 126 false (wrap_factor s) (neg_wrap_factor s) = 246 /\
  fold 246 false = (9, false) /\
  leader_value (PWM_INTERRUPT s) = 9 /\
  leader_polarity (PWM_INTERRUPT s) = false /\
  output (PWM_INTERRUPT s) = 137.
Proof. vm_compute. repeat split; reflexivity. Qed.

(** ** Scenarios *)

(** Note-on 60 without portamento and with the wrap inputs at zero: the
    ramp jumps to the increment of note 60 and both thresholds are 64. *)
Example middle_pitch_no_fold :
  exists s' : State,
    loop (wrap_inputs 0 0) resting_update (Some (NoteOn 1 60 100)) power_on
      = Some s' /\
    midinote s' = 36 /\
    mapMIDI 36 = Some 550 /\
    portRamp s' = mkRamp 550 550 0 NONE /\
    phase_inc s' = 550 /\
    wrap_factor s' = 64 /\ neg_wrap_factor s' = 64 /\
    DIGITAL_OUT_PIN s' = true.
Proof. eexists. vm_compute. repeat split; reflexivity. Qed.

(** Note 60, then controller 5 at 10, then note 72: the second note-on
    retargets the ramp to the increment of note 72 over 200 ms and leaves
    the current value at the increment of note 60. *)
Example portamento_glide :
  exists s1 s3 : State,
    handleNoteOn 1 60 100 power_on = Some s1 /\
    handleNoteOn 1 72 100 (handleControlChange 1 5 10 s1) = Some s3 /\
    portRamp s1 = mkRamp 550 550 0 NONE /\
    portTime s3 = 200 /\
    portRamp s3 = mkRamp 1097 550 200 LINEAR.
Proof. do 2 eexists. vm_compute. repeat split; reflexivity. Qed.

(** A note-off lowers the gate and keeps the pitch. *)
Example note_off_keeps_pitch (channel pitch velocity : Z) (s : State) :
  let s' := handleNoteOff channel pitch velocity s in
  DIGITAL_OUT_PIN s' = false /\
  midinote s' = midinote s /\ portRamp s' = portRamp s /\
  phase_inc s' = phase_inc s.
Proof. repeat split. Qed.

(** * Further properties *)

(** ** The pitch tables as a tuning curve *)

Lemma upto_In (n : nat) (z : Z) : 0 <= z < Z.of_nat n -> In z (upto n).
Proof.
  intros Hz. unfold upto. apply in_map_iff.
  exists (Z.to_nat z). split; [lia |].
  apply in_seq. lia.
Qed.

Lemma freqTable_values : values_between 69 2188 freqTable = true.
Proof. vm_compute. reflexivity. Qed.

(** [mapFreq] has no clamp of its own: it yields an increment exactly on
    the codes [0 .. 1023], and that increment lies between the first and
    the last entry of the table, 69 and 2188. *)
Theorem mapFreq_domain_and_range (c : Z) :
  (mapFreq c <> None <-> 0 <= c <= 1023) /\
  (forall f : Z, mapFreq c = Some f -> 69 <= f <= 2188).
Proof.
  unfold mapFreq, pgm_read_word_near. split.
  - destruct (Z.ltb_spec c 0) as [Hneg | Hpos].
    + split; [intros H; contradiction | lia].
    + rewrite nth_error_Some, freqTable_length. lia.
  - intros f Hf.
    destruct (c <? 0); [discriminate |].
    apply nth_error_In in Hf.
    pose proof freqTable_values as Hall. unfold values_between in Hall.
    rewrite forallb_forall in Hall. specialize (Hall f Hf).
    apply andb_true_iff in Hall. destruct Hall as [Hlo Hhi].
    apply Z.leb_le in Hlo. apply Z.leb_le in Hhi. lia.
Qed.

Lemma mapFreq_domain_and_range_witness :
  (mapFreq 512 <> None <-> 0 <= 512 <= 1023) /\
  (forall f : Z, mapFreq 512 = Some f -> 69 <= f <= 2188).
Proof. apply (mapFreq_domain_and_range 512). Defined.

Lemma notes_increasing_checked : notes_increasing = true.
Proof. vm_compute. reflexivity. Qed.

Lemma mapMIDI_step (n : Z) :
  0 <= n < 60 ->
  exists a b : Z, mapMIDI n = Some a /\ mapMIDI (n + 1) = Some b /\ a < b.
Proof.
  intros Hn.
  pose proof notes_increasing_checked as Hall.
  unfold notes_increasing in Hall. rewrite forallb_forall in Hall.
  specialize (Hall n (upto_In 60 n ltac:(lia))).
  destruct (mapMIDI n) as [a |]; [| discriminate].
  destruct (mapMIDI (n + 1)) as [b |]; [| discriminate].
  exists a, b. repeat split. apply Z.ltb_lt. exact Hall.
Qed.

Lemma mapMIDI_gap (d : nat) (a : Z) :
  0 <= a -> a + 1 + Z.of_nat d <= 60 ->
  exists fa fb : Z,
    mapMIDI a = Some fa /\ mapMIDI (a + 1 + Z.of_nat d) = Some fb /\ fa < fb.
Proof.
  intros Ha. induction d as [| d IH]; intros Hb.
  - replace (a + 1 + Z.of_nat 0) with (a + 1) by lia.
    apply mapMIDI_step. lia.
  - destruct IH as [fa [fm [Hfa [Hfm Hlt]]]]; [lia |].
    destruct (mapMIDI_step (a + 1 + Z.of_nat d)) as [fm' [fb [Hfm' [Hfb Hlt']]]];
      [lia |].
    rewrite Hfm in Hfm'. injection Hfm' as <-.
    exists fa, fb. split; [exact Hfa |]. split; [| lia].
    replace (a + 1 + Z.of_nat (S d)) with (a + 1 + Z.of_nat d + 1) by lia.
    exact Hfb.
Qed.

(** The note-to-increment map is strictly increasing over the 61 notes of
    the table: a higher note always gets a larger phase increment. *)
Theorem mapMIDI_increasing (a b : Z) (Ha : 0 <= a) (Hab : a < b)
    (Hb : b <= 60) :
  exists fa fb : Z, mapMIDI a = Some fa /\ mapMIDI b = Some fb /\ fa < fb.
Proof.
  destruct (mapMIDI_gap (Z.to_nat (b - a - 1)) a Ha) as [fa [fb [Hfa [Hfb Hlt]]]];
    [lia |].
  replace (a + 1 + Z.of_nat (Z.to_nat (b - a - 1))) with b in Hfb by lia.
  exists fa, fb. auto.
Qed.

Lemma mapMIDI_increasing_witness :
  exists fa fb : Z, mapMIDI 12 = Some fa /\ mapMIDI 48 = Some fb /\ fa < fb.
Proof. apply (mapMIDI_increasing 12 48); lia. Defined.

Lemma octaves_double_checked : octaves_double 6 = true.
Proof. vm_compute. reflexivity. Qed.

(** Twelve notes up is an octave: over the whole table the increment of
    note [n + 12] is twice that of note [n], to within 6 units. *)
Theorem mapMIDI_octave (n : Z) (Hn : 0 <= n <= 48) :
  exists a b : Z,
    mapMIDI n = Some a /\ mapMIDI (n + 12) = Some b /\
    Z.abs (b - 2 * a) <= 6.
Proof.
  pose proof octaves_double_checked as Hall.
  unfold octaves_double in Hall. rewrite forallb_forall in Hall.
  specialize (Hall n (upto_In 49 n ltac:(lia))).
  destruct (mapMIDI n) as [a |]; [| discriminate].
  destruct (mapMIDI (n + 12)) as [b |]; [| discriminate].
  exists a, b. repeat split. apply Z.leb_le. exact Hall.
Qed.

Lemma mapMIDI_octave_witness :
  exists a b : Z,
    mapMIDI 36 = Some a /\ mapMIDI (36 + 12) = Some b /\
    Z.abs (b - 2 * a) <= 6.
Proof. apply (mapMIDI_octave 36). lia. Defined.

(** ** Note-on as a function of the pitch *)

Lemma handleNoteOn_result (channel pitch velocity : Z) (s : State) :
  exists inc : Z,
    mapMIDI (Z.max 24 (Z.min 84 pitch) - 24) = Some inc /\
    handleNoteOn channel pitch velocity s =
    Some (set_note true (Z.max 24 (Z.min 84 pitch) - 24)
            (if port s
             then go4 inc (portTime s) LINEAR ONCEFORWARD (portRamp s)
             else go inc (portRamp s)) s).
Proof.
  pose proof (midinote_range pitch) as Hrange.
  destruct (mapMIDI_in_bounds _ Hrange) as [idx [inc [_ [_ [_ Hmap]]]]].
  exists inc. split; [exact Hmap |].
  unfold handleNoteOn. destruct (clamp_note pitch) as [_ ->].
  rewrite u16_id by (unfold is_u16; lia).
  rewrite Hmap. reflexivity.
Qed.

Lemma ramp_target_note (inc : Z) (s : State) :
  ramp_target (if port s
               then go4 inc (portTime s) LINEAR ONCEFORWARD (portRamp s)
               else go inc (portRamp s)) = inc.
Proof. destruct (port s); unfold go; apply ramp_target_go4. Qed.

(** Whatever the channel, the velocity and the state, a note-on with the
    higher pitch never targets the lower increment; inside the range
    [24,84] a higher pitch targets a strictly larger one; every pitch up to
    24 targets the first note of the table (69) and every pitch from 84 up
    the last (2188). *)
Theorem handleNoteOn_pitch_order (c1 c2 p q v1 v2 : Z) (s1 s2 : State)
    (Hpq : p <= q) :
  exists s1' s2' : State,
    handleNoteOn c1 p v1 s1 = Some s1' /\
    handleNoteOn c2 q v2 s2 = Some s2' /\
    midinote s1' <= midinote s2' /\
    ramp_target (portRamp s1') <= ramp_target (portRamp s2') /\
    (24 <= p -> p < q -> q <= 84 ->
     ramp_target (portRamp s1') < ramp_target (portRamp s2')) /\
    (q <= 24 -> ramp_target (portRamp s2') = 69) /\
    (84 <= p -> ramp_target (portRamp s1') = 2188).
Proof.
  destruct (handleNoteOn_result c1 p v1 s1) as [f1 [Hf1 ->]].
  destruct (handleNoteOn_result c2 q v2 s2) as [f2 [Hf2 ->]].
  do 2 eexists. split; [reflexivity |]. split; [reflexivity |].
  cbn [midinote portRamp set_note]. rewrite !ramp_target_note.
  set (m1 := Z.max 24 (Z.min 84 p) - 24) in *.
  set (m2 := Z.max 24 (Z.min 84 q) - 24) in *.
  assert (Hm1 : 0 <= m1 <= 60) by (subst m1; lia).
  assert (Hm2 : 0 <= m2 <= 60) by (subst m2; lia).
  assert (Hm : m1 <= m2) by (subst m1 m2; lia).
  assert (Hstrict : m1 < m2 -> f1 < f2).
  { intros Hlt.
    destruct (mapMIDI_gap (Z.to_nat (m2 - m1 - 1)) m1)
      as [g1 [g2 [Hg1 [Hg2 Hg]]]]; try lia.
    replace (m1 + 1 + Z.of_nat (Z.to_nat (m2 - m1 - 1))) with m2 in Hg2
      by lia.
    congruence. }
  split; [exact Hm |].
  split.
  { destruct (Z.eq_dec m1 m2) as [Heq | Hne].
    - rewrite Heq in Hf1. assert (f1 = f2) by congruence. lia.
    - assert (f1 < f2) by (apply Hstrict; lia). lia. }
  split; [intros H24 Hlt H84; apply Hstrict; subst m1 m2; lia |].
  split.
  - intros Hlow. replace m2 with 0 in Hf2 by (subst m2; lia).
    vm_compute in Hf2. congruence.
  - intros Hhigh. replace m1 with 60 in Hf1 by (subst m1; lia).
    vm_compute in Hf1. congruence.
Qed.

Lemma handleNoteOn_pitch_order_witness :
  exists s1' s2' : State,
    handleNoteOn 1 60 100 power_on = Some s1' /\
    handleNoteOn 2 72 90 power_on = Some s2' /\
    midinote s1' <= midinote s2' /\
    ramp_target (portRamp s1') <= ramp_target (portRamp s2') /\
    (24 <= 60 -> 60 < 72 -> 72 <= 84 ->
     ramp_target (portRamp s1') < ramp_target (portRamp s2')) /\
    (72 <= 24 -> ramp_target (portRamp s2') = 69) /\
    (84 <= 60 -> ramp_target (portRamp s1') = 2188).
Proof.
  apply (handleNoteOn_pitch_order 1 2 60 72 100 90 power_on power_on). lia.
Defined.

(** ** Who writes what *)

Lemma MIDI_read_frame (msg : option MidiMessage) (s s1 : State) :
  MIDI_read msg s = Some s1 ->
  audio_globals s1 = audio_globals s /\
  phase_inc s1 = phase_inc s /\
  follower_offset_measured s1 = follower_offset_measured s /\
  wrap_factor s1 = wrap_factor s /\
  neg_wrap_factor s1 = neg_wrap_factor s.
Proof.
  destruct msg as [[c p v | c p v | c n v] |]; simpl; intros Hread.
  - destruct (handleNoteOn_result c p v s) as [inc [_ Hres]].
    rewrite Hres in Hread. injection Hread as <-.
    repeat split; reflexivity.
  - injection Hread as <-. repeat split; reflexivity.
  - injection Hread as <-. unfold handleControlChange.
    destruct (n =? 5); [destruct (v =? 0) |]; repeat split; reflexivity.
  - injection Hread as <-. repeat split; reflexivity.
Qed.

(** A pass of [loop], whatever message it dispatches and whatever the
    converter and the ramp return, completes and leaves every global of the
    audio side as it was; in particular it never writes
    [follower_offset_current]. *)
Theorem loop_keeps_audio_globals (analogRead : Pin -> nat -> Z)
    (update : rampInt -> Z * rampInt) (msg : option MidiMessage)
    (s : State) :
  exists s' : State,
    loop analogRead update msg s = Some s' /\
    audio_globals s' = audio_globals s.
Proof.
  destruct (MIDI_read_total msg s) as [s1 Hread].
  destruct (MIDI_read_frame msg s s1 Hread) as [Haudio _].
  unfold loop. rewrite Hread.
  destruct (update (portRamp s1)) as [inc ramp'].
  eexists. split; [reflexivity |].
  rewrite <- Haudio. reflexivity.
Qed.

Lemma ticks_succ (n : nat) (s : State) :
  ticks (S n) s = PWM_INTERRUPT (ticks n s).
Proof. reflexivity. Qed.

Lemma ticks_control_fields (n : nat) (s : State) :
  phase_inc (ticks n s) = phase_inc s /\
  follower_offset_measured (ticks n s) = follower_offset_measured s /\
  port (ticks n s) = port s /\
  portTime (ticks n s) = portTime s.
Proof.
  induction n as [| n [IHinc [IHmeas [IHport IHtime]]]];
    [repeat split; reflexivity |].
  rewrite ticks_succ.
  destruct (tick_frame (ticks n s)) as [-> [_ [_ [-> [-> _]]]]].
  destruct (tick_offset (ticks n s)) as [_ ->].
  repeat split; assumption.
Qed.

(** Any number of ticks in a row leaves every global of the control side
    as it was: the interrupt only reads the pitch, the measured offset, the
    thresholds and the portamento settings. *)
Theorem ticks_keep_control_globals (n : nat) (s : State) :
  control_globals (ticks n s) = control_globals s.
Proof.
  induction n as [| n IH]; [reflexivity |].
  rewrite ticks_succ, <- IH. unfold control_globals.
  destruct (tick_frame (ticks n s))
    as [-> [-> [-> [-> [-> [-> [-> ->]]]]]]].
  destruct (tick_offset (ticks n s)) as [_ ->].
  reflexivity.
Qed.

(** ** Invariants *)

Lemma handleControlChange_glide (channel num val : Z) (s : State) :
  is_u8 val -> glide_ready s ->
  glide_ready (handleControlChange channel num val s).
Proof.
  unfold is_u8, glide_ready, handleControlChange. intros Hval Hready.
  destruct (num =? 5); [| exact Hready].
  destruct (Z.eqb_spec val 0) as [Hzero | Hpos]; cbn [port portTime set_port].
  - discriminate.
  - intros _. rewrite u16_id by (unfold is_u16; lia). lia.
Qed.

Lemma MIDI_read_glide (msg : option MidiMessage) (s s1 : State) :
  byte_message msg -> glide_ready s ->
  MIDI_read msg s = Some s1 -> glide_ready s1.
Proof.
  destruct msg as [[c p v | c p v | c n v] |]; simpl;
    intros Hbytes Hready Hread.
  - destruct (handleNoteOn_result c p v s) as [inc [_ Hres]].
    rewrite Hres in Hread. injection Hread as <-. exact Hready.
  - injection Hread as <-. exact Hready.
  - injection Hread as <-. apply handleControlChange_glide; tauto.
  - injection Hread as <-. exact Hready.
Qed.

(** While portamento is on, the glide time is between 20 and 5100 ms: this
    holds at power-on and is kept by every pass of [loop] that dispatches a
    message with byte arguments (20 times a byte never wraps the 16-bit
    [portTime]) and by any number of ticks.  So a note-on with portamento
    on never asks for a glide of duration zero. *)
Theorem glide_ready_kept (analogRead : Pin -> nat -> Z)
    (update : rampInt -> Z * rampInt) (msg : option MidiMessage)
    (n : nat) (s : State)
    (Hbytes : byte_message msg) (Hready : glide_ready s) :
  glide_ready power_on /\
  (exists s' : State,
     loop analogRead update msg s = Some s' /\ glide_ready s') /\
  glide_ready (ticks n s).
Proof.
  split; [intros Hport; discriminate |].
  split.
  - destruct (MIDI_read_total msg s) as [s1 Hread].
    pose proof (MIDI_read_glide msg s s1 Hbytes Hready Hread) as Hready1.
    unfold loop. rewrite Hread.
    destruct (update (portRamp s1)) as [inc ramp'].
    eexists. split; [reflexivity | exact Hready1].
  - destruct (ticks_control_fields n s) as [_ [_ [Hport Htime]]].
    unfold glide_ready. rewrite Hport, Htime. exact Hready.
Qed.

Lemma glide_ready_kept_witness :
  glide_ready power_on /\
  (exists s' : State,
     loop (wrap_inputs 0 0) resting_update (Some (ControlChange 0 5 255))
          power_on = Some s' /\ glide_ready s') /\
  glide_ready (ticks 2 power_on).
Proof.
  apply (glide_ready_kept (wrap_inputs 0 0) resting_update
           (Some (ControlChange 0 5 255)) 2 power_on).
  - simpl. unfold is_u8. lia.
  - unfold glide_ready. simpl. discriminate.
Defined.

Lemma smooth_between (cur meas : Z) :
  0 <= cur <= 1023 -> 0 <= meas <= 1023 -> 0 <= smooth cur meas <= 1023.
Proof.
  intros Hcur Hmeas.
  rewrite smooth_step by (unfold is_u16; lia).
  destruct (Z.ltb_spec cur meas); [lia |].
  destruct (Z.gtb_spec cur meas); lia.
Qed.

Section Conversions.

Variable analogRead : Pin -> nat -> Z.
Variables cv knob : Pin.
Hypothesis cv_code : forall k : nat, 0 <= analogRead cv k <= 1023.
Hypothesis knob_code : forall k : nat, 0 <= analogRead knob k <= 1023.

Lemma min_1023_sum_range (k : nat) :
  0 <= fst (min_1023_sum analogRead cv knob k) <= 2046.
Proof.
  unfold min_1023_sum, read_sum.
  pose proof (cv_code (S k)). pose proof (knob_code (S k)).
  destruct (1023 <? _); cbn [fst]; lia.
Qed.

Lemma min_1023_sum_steady (k : nat) :
  (forall j : nat, analogRead cv j = analogRead cv 0%nat) ->
  (forall j : nat, analogRead knob j = analogRead knob 0%nat) ->
  fst (min_1023_sum analogRead cv knob k) =
  Z.min 1023 (analogRead cv 0%nat + analogRead knob 0%nat).
Proof.
  intros Hcv Hknob. unfold min_1023_sum, read_sum.
  rewrite (Hcv k), (Hknob k), (Hcv (S k)), (Hknob (S k)).
  destruct (Z.ltb_spec 1023 (analogRead cv 0%nat + analogRead knob 0%nat));
    cbn [fst]; lia.
Qed.

End Conversions.

Lemma wrap_from_inputs_range (analogRead : Pin -> nat -> Z) :
  (forall k : nat, 0 <= analogRead WRAP_CV k <= 1023) ->
  (forall k : nat, 0 <= analogRead WRAP_KNOB k <= 1023) ->
  64 <= wrap_from_inputs analogRead <= 1087.
Proof.
  intros Hcv Hknob. unfold wrap_from_inputs.
  destruct (min_1023_sum analogRead WRAP_CV WRAP_KNOB 0) as [a k].
  destruct (64 + Z.shiftr a 1 <? 511); [| lia].
  pose proof (min_1023_sum_range analogRead WRAP_CV WRAP_KNOB Hcv Hknob k)
    as Hb.
  destruct (min_1023_sum analogRead WRAP_CV WRAP_KNOB k) as [b k'].
  cbn [fst] in Hb. rewrite Z.shiftr_div_pow2 by lia. change (2 ^ 1) with 2.
  Z.to_euclidean_division_equations. lia.
Qed.

Lemma wrap_from_inputs_steady (analogRead : Pin -> nat -> Z) :
  (forall k : nat, analogRead WRAP_CV k = analogRead WRAP_CV 0%nat) ->
  (forall k : nat, analogRead WRAP_KNOB k = analogRead WRAP_KNOB 0%nat) ->
  wrap_from_inputs analogRead =
  Z.min (64 + Z.min 1023 (analogRead WRAP_CV 0%nat +
                          analogRead WRAP_KNOB 0%nat) / 2) 511.
Proof.
  intros Hcv Hknob. unfold wrap_from_inputs.
  pose proof (min_1023_sum_steady analogRead WRAP_CV WRAP_KNOB 0 Hcv Hknob)
    as Ha.
  destruct (min_1023_sum analogRead WRAP_CV WRAP_KNOB 0) as [a k].
  cbn [fst] in Ha.
  pose proof (min_1023_sum_steady analogRead WRAP_CV WRAP_KNOB k Hcv Hknob)
    as Hb.
  destruct (min_1023_sum analogRead WRAP_CV WRAP_KNOB k) as [b k'].
  cbn [fst] in Hb. rewrite Ha, Hb.
  rewrite Z.shiftr_div_pow2 by lia. change (2 ^ 1) with 2.
  destruct (Z.ltb_spec
              (64 + Z.min 1023 (analogRead WRAP_CV 0%nat +
                                analogRead WRAP_KNOB 0%nat) / 2) 511); lia.
Qed.

(** The fold thresholds a pass of [loop] leaves, for 10-bit codes on the
    two wrap inputs.  Whatever the inputs do between conversions, the pass
    completes with [wrap_factor] in [64,1087] and
    [neg_wrap_factor = max (wrap_factor/2) 64] in [64,543].  When each of
    the two inputs returns the same code at every conversion of the pass,
    [wrap_factor = min (64 + v/2) 511] for the clamped sum [v] of the two
    codes, within [64,511], and [neg_wrap_factor] is within [64,255]. *)
Theorem loop_thresholds_when_steady (analogRead : Pin -> nat -> Z)
    (update : rampInt -> Z * rampInt) (msg : option MidiMessage)
    (s : State)
    (Hcv : forall k : nat, 0 <= analogRead WRAP_CV k <= 1023)
    (Hknob : forall k : nat, 0 <= analogRead WRAP_KNOB k <= 1023) :
  exists s' : State,
    loop analogRead update msg s = Some s' /\
    64 <= wrap_factor s' <= 1087 /\
    neg_wrap_factor s' = Z.max (wrap_factor s' / 2) 64 /\
    64 <= neg_wrap_factor s' <= 543 /\
    ((forall k : nat, analogRead WRAP_CV k = analogRead WRAP_CV 0%nat) ->
     (forall k : nat, analogRead WRAP_KNOB k = analogRead WRAP_KNOB 0%nat) ->
     wrap_factor s' =
       Z.min (64 + Z.min 1023 (analogRead WRAP_CV 0%nat +
                               analogRead WRAP_KNOB 0%nat) / 2) 511 /\
     64 <= wrap_factor s' <= 511 /\
     64 <= neg_wrap_factor s' <= 255).
Proof.
  destruct (loop_result analogRead update msg s)
    as [s' [Hloop [_ [_ [Hwrap Hneg]]]]].
  exists s'. split; [exact Hloop |].
  pose proof (wrap_from_inputs_range analogRead Hcv Hknob) as Hrange.
  rewrite u16_id in Hwrap by (unfold is_u16; lia).
  rewrite neg_wrap_factor_formula in Hneg
    by (rewrite Hwrap; unfold is_u16; lia).
  rewrite Hneg, Hwrap.
  assert (Hhalf : forall w : Z, 64 <= w <= 1087 -> 32 <= w / 2 <= 543)
    by (intros w Hw; Z.to_euclidean_division_equations; lia).
  pose proof (Hhalf _ Hrange) as Hh.
  split; [exact Hrange |]. split; [reflexivity |]. split; [lia |].
  intros Hscv Hsknob.
  rewrite (wrap_from_inputs_steady analogRead Hscv Hsknob) in *.
  split; [reflexivity |].
  set (w := Z.min (64 + Z.min 1023 (analogRead WRAP_CV 0%nat +
                                    analogRead WRAP_KNOB 0%nat) / 2) 511)
    in *.
  assert (Hw : w <= 511) by (subst w; apply Z.le_min_r).
  assert (Hq : w / 2 <= 255) by (Z.to_euclidean_division_equations; lia).
  lia.
Qed.

Lemma loop_thresholds_when_steady_witness :
  exists s' : State,
    loop (wrap_inputs 700 323) resting_update None power_on = Some s' /\
    64 <= wrap_factor s' <= 1087 /\
    neg_wrap_factor s' = Z.max (wrap_factor s' / 2) 64 /\
    64 <= neg_wrap_factor s' <= 543 /\
    ((forall k : nat,
        wrap_inputs 700 323 WRAP_CV k = wrap_inputs 700 323 WRAP_CV 0%nat) ->
     (forall k : nat,
        wrap_inputs 700 323 WRAP_KNOB k =
        wrap_inputs 700 323 WRAP_KNOB 0%nat) ->
     wrap_factor s' =
       Z.min (64 + Z.min 1023 (wrap_inputs 700 323 WRAP_CV 0%nat +
                               wrap_inputs 700 323 WRAP_KNOB 0%nat) / 2)
             511 /\
     64 <= wrap_factor s' <= 511 /\
     64 <= neg_wrap_factor s' <= 255).
Proof.
  apply (loop_thresholds_when_steady (wrap_inputs 700 323) resting_update
           None power_on).
  - intros k. simpl. lia.
  - intros k. simpl. lia.
Defined.

(** Both follower offsets as 10-bit codes: this holds at power-on and any
    number of ticks keeps it.  A pass of [loop] over 10-bit codes on the
    two follower inputs never writes the current offset and leaves a
    measured offset of at most 2046; when the second conversion of each of
    the two inputs repeats the first, the measured offset is the clamped
    sum of the two codes and both offsets are 10-bit codes again. *)
Theorem offsets_in_range_kept (analogRead : Pin -> nat -> Z)
    (update : rampInt -> Z * rampInt) (msg : option MidiMessage)
    (n : nat) (s : State)
    (Hcv : forall k : nat, 0 <= analogRead FOLLOWER_CV k <= 1023)
    (Hknob : forall k : nat, 0 <= analogRead FOLLOWER_KNOB k <= 1023)
    (Hin : offsets_in_range s) :
  offsets_in_range power_on /\
  (exists s' : State,
     loop analogRead update msg s = Some s' /\
     follower_offset_current s' = follower_offset_current s /\
     0 <= follower_offset_measured s' <= 2046 /\
     (analogRead FOLLOWER_CV 1%nat = analogRead FOLLOWER_CV 0%nat ->
      analogRead FOLLOWER_KNOB 1%nat = analogRead FOLLOWER_KNOB 0%nat ->
      follower_offset_measured s' =
        Z.min 1023 (analogRead FOLLOWER_CV 0%nat +
                    analogRead FOLLOWER_KNOB 0%nat) /\
      offsets_in_range s')) /\
  offsets_in_range (ticks n s).
Proof.
  split; [unfold offsets_in_range; simpl; lia |].
  split.
  - destruct (loop_result analogRead update msg s)
      as [s' [Hloop [Haudio [Hmeas _]]]].
    exists s'. split; [exact Hloop |].
    assert (Hcur : follower_offset_current s' = follower_offset_current s).
    { unfold audio_globals in Haudio.
      injection Haudio as _ _ _ _ Hcur _ _ _ _ _. exact Hcur. }
    pose proof (min_1023_sum_range analogRead FOLLOWER_CV FOLLOWER_KNOB
                  Hcv Hknob 0) as Hrange.
    rewrite u16_id in Hmeas by (unfold is_u16; lia).
    split; [exact Hcur |]. split; [rewrite Hmeas; exact Hrange |].
    intros Hscv Hsknob.
    assert (Hsum : follower_offset_measured s' =
                   Z.min 1023 (analogRead FOLLOWER_CV 0%nat +
                               analogRead FOLLOWER_KNOB 0%nat)).
    { rewrite Hmeas. unfold min_1023_sum, read_sum.
      rewrite Hscv, Hsknob.
      destruct (Z.ltb_spec 1023 (analogRead FOLLOWER_CV 0%nat +
                                 analogRead FOLLOWER_KNOB 0%nat));
        cbn [fst]; lia. }
    split; [exact Hsum |].
    unfold offsets_in_range. rewrite Hcur, Hsum.
    pose proof (Hcv 0%nat). pose proof (Hknob 0%nat).
    split; [apply Hin | lia].
  - induction n as [| n IH]; [exact Hin |].
    rewrite ticks_succ. unfold offsets_in_range in *.
    destruct (tick_offset (ticks n s)) as [-> ->].
    split; [apply smooth_between; apply IH | apply IH].
Qed.

Lemma offsets_in_range_kept_witness :
  offsets_in_range power_on /\
  (exists s' : State,
     loop (steady_inputs 1023) resting_update None power_on = Some s' /\
     follower_offset_current s' = follower_offset_current power_on /\
     0 <= follower_offset_measured s' <= 2046 /\
     (steady_inputs 1023 FOLLOWER_CV 1%nat =
      steady_inputs 1023 FOLLOWER_CV 0%nat ->
      steady_inputs 1023 FOLLOWER_KNOB 1%nat =
      steady_inputs 1023 FOLLOWER_KNOB 0%nat ->
      follower_offset_measured s' =
        Z.min 1023 (steady_inputs 1023 FOLLOWER_CV 0%nat +
                    steady_inputs 1023 FOLLOWER_KNOB 0%nat) /\
      offsets_in_range s')) /\
  offsets_in_range (ticks 5 power_on).
Proof.
  apply (offsets_in_range_kept (steady_inputs 1023) resting_update None 5
           power_on).
  - intros k. unfold steady_inputs. lia.
  - intros k. unfold steady_inputs. lia.
  - unfold offsets_in_range. simpl. lia.
Defined.

(** A follower CV that moves by one code between its two conversions, 23
    then 24 on a knob at 1000: the sum compared is 1023, the sum stored is
    1024. *)
Example follower_offset_unclamped :
  exists s' : State,
    loop rising_follower_cv resting_update None power_on = Some s' /\
    follower_offset_measured s' = 1024.
Proof. eexists. vm_compute. split; reflexivity. Qed.

(** ** Runs of ticks *)

Lemma ticks_phase_inc (n : nat) (s : State) :
  phase_inc (ticks n s) = phase_inc s /\
  follower_offset_measured (ticks n s) = follower_offset_measured s.
Proof.
  destruct (ticks_control_fields n s) as [Hinc [Hmeas _]].
  split; assumption.
Qed.

(** The leader is a phase accumulator: after [n] ticks at a fixed pitch
    its phase is the start phase plus [n] increments, modulo 65536; so
    whatever the increment, 65536 ticks bring the phase back to where it
    started. *)
Theorem ticks_leader_phase (n : nat) (s : State)
    (Hphase : is_u16 (leader_phase s)) :
  leader_phase (ticks n s) =
    (leader_phase s + Z.of_nat n * phase_inc s) mod 65536 /\
  leader_phase (ticks (Z.to_nat 65536) s) = leader_phase s.
Proof.
  assert (Hrun : forall k : nat,
            leader_phase (ticks k s) =
            (leader_phase s + Z.of_nat k * phase_inc s) mod 65536).
  { induction k as [| k IH].
    - simpl. rewrite Z.add_0_r. symmetry. apply Z.mod_small. exact Hphase.
    - rewrite ticks_succ, tick_leader_phase, IH.
      destruct (ticks_phase_inc k s) as [-> _].
      unfold u16. rewrite Z.add_mod_idemp_l by lia.
      f_equal. lia. }
  split; [apply Hrun |].
  rewrite Hrun, Z2Nat.id by lia.
  rewrite (Z.mul_comm 65536), Z.mod_add by lia.
  apply Z.mod_small. exact Hphase.
Qed.

Lemma ticks_leader_phase_witness :
  leader_phase (ticks 3 (tick_state 65000 2188 1 1 64 64)) =
    (65000 + Z.of_nat 3 * 2188) mod 65536 /\
  leader_phase (ticks (Z.to_nat 65536) (tick_state 65000 2188 1 1 64 64)) =
    65000.
Proof.
  apply (ticks_leader_phase 3 (tick_state 65000 2188 1 1 64 64)).
  unfold is_u16. simpl. lia.
Defined.

(** The smoothed offset is a slew limiter: after [n] ticks with the
    measured offset unchanged it has moved [n] units toward it, or has
    reached it; once the number of ticks is at least the initial
    distance the two are equal, and stay equal. *)
Theorem ticks_offset_converges (n : nat) (s : State)
    (Hcur : is_u16 (follower_offset_current s))
    (Hmeas : is_u16 (follower_offset_measured s)) :
  let cur := follower_offset_current s in
  let meas := follower_offset_measured s in
  follower_offset_current (ticks n s) =
    (if cur <=? meas then Z.min meas (cur + Z.of_nat n)
     else Z.max meas (cur - Z.of_nat n)) /\
  (Z.abs (cur - meas) <= Z.of_nat n ->
   follower_offset_current (ticks n s) = meas).
Proof.
  intros cur meas.
  assert (Hrun : follower_offset_current (ticks n s) =
                 (if cur <=? meas then Z.min meas (cur + Z.of_nat n)
                  else Z.max meas (cur - Z.of_nat n))).
  { induction n as [| n IH].
    - simpl. fold cur. destruct (Z.leb_spec cur meas); lia.
    - rewrite ticks_succ.
      destruct (tick_offset (ticks n s)) as [-> _].
      destruct (ticks_phase_inc n s) as [_ ->]. fold meas.
      rewrite IH. unfold is_u16 in Hcur, Hmeas. fold cur in Hcur.
      fold meas in Hmeas.
      rewrite smooth_step
        by (unfold is_u16; destruct (Z.leb_spec cur meas); lia).
      destruct (Z.leb_spec cur meas) as [Hle | Hgt].
      + destruct (Z.ltb_spec (Z.min meas (cur + Z.of_nat n)) meas);
          [lia |].
        destruct (Z.gtb_spec (Z.min meas (cur + Z.of_nat n)) meas); lia.
      + destruct (Z.ltb_spec (Z.max meas (cur - Z.of_nat n)) meas);
          [lia |].
        destruct (Z.gtb_spec (Z.max meas (cur - Z.of_nat n)) meas); lia. }
  split; [exact Hrun |].
  intros Hdist. rewrite Hrun.
  destruct (Z.leb_spec cur meas); lia.
Qed.

Lemma ticks_offset_converges_witness :
  let cur := 1000 in
  let meas := 997 in
  follower_offset_current (ticks 5 (tick_state 0 69 1000 997 64 64)) =
    (if cur <=? meas then Z.min meas (cur + Z.of_nat 5)
     else Z.max meas (cur - Z.of_nat 5)) /\
  (Z.abs (cur - meas) <= Z.of_nat 5 ->
   follower_offset_current (ticks 5 (tick_state 0 69 1000 997 64 64)) = meas).
Proof.
  apply (ticks_offset_converges 5 (tick_state 0 69 1000 997 64 64));
    unfold is_u16; simpl; lia.
Defined.

(** ** The parabolic sine *)

Lemma sine_index (phase : Z) :
  Z.shiftr (u16 (Z.shiftl phase 1)) 8 = (phase mod 32768) / 128.
Proof.
  unfold u16. rewrite Z.shiftl_mul_pow2, Z.shiftr_div_pow2 by lia.
  change (2 ^ 1) with 2. change (2 ^ 8) with 256.
  Z.to_euclidean_division_equations. lia.
Qed.

Lemma sine_index_byte (phase : Z) : 0 <= (phase mod 32768) / 128 <= 255.
Proof. Z.to_euclidean_division_equations. lia. Qed.

Lemma lnot_byte (x : Z) : 0 <= x <= 255 -> Z.land (Z.lnot x) 255 = 255 - x.
Proof.
  intros Hx. rewrite land_255. unfold Z.lnot.
  Z.to_euclidean_division_equations. lia.
Qed.

Lemma parabola_bound (x : Z) : 0 <= x <= 255 -> 0 <= x * (255 - x) <= 16256.
Proof.
  intros Hx. split; [nia |].
  destruct (Z.le_gt_cases x 127); nia.
Qed.

Lemma rescale_small (v : Z) : 0 <= v < 16384 -> rescale v = v / 64.
Proof.
  intros Hv. rewrite rescale_div.
  rewrite Z.mod_small by lia.
  Z.to_euclidean_division_equations. lia.
Qed.

Lemma sine_closed (phase : Z) :
  sine phase =
  ((phase mod 32768) / 128 * (255 - (phase mod 32768) / 128)) / 64.
Proof.
  unfold sine. cbv zeta. rewrite sine_index.
  pose proof (sine_index_byte phase) as Hx.
  rewrite lnot_byte by exact Hx.
  pose proof (parabola_bound _ Hx) as Hp.
  rewrite u16_id by (unfold is_u16; lia).
  apply rescale_small. lia.
Qed.

(** The sine approximation is an exact parabola on bits 7 to 14 of the
    phase: with [x] those eight bits, the magnitude is [x (255 - x) / 64]
    with no bit lost to the 16-bit arithmetic; it lies in [0,254], is the
    same for [x] and [255 - x], and is zero exactly when [x] is 0 or 255,
    the two ends of a half cycle. *)
Theorem sine_parabola (phase : Z) :
  let x := (phase mod 32768) / 128 in
  0 <= x <= 255 /\
  sine phase = x * (255 - x) / 64 /\
  0 <= sine phase <= 254 /\
  (sine phase = 0 <-> x = 0 \/ x = 255) /\
  (forall other : Z,
     (other mod 32768) / 128 = 255 - x -> sine other = sine phase).
Proof.
  intros x. pose proof (sine_index_byte phase) as Hx. fold x in Hx.
  pose proof (parabola_bound x Hx) as Hp.
  assert (Hsine : sine phase = x * (255 - x) / 64) by apply sine_closed.
  split; [exact Hx |]. split; [exact Hsine |].
  split; [rewrite Hsine; Z.to_euclidean_division_equations; lia |].
  split.
  - rewrite Hsine. split.
    + intros Hzero.
      assert (Hlow : x * (255 - x) < 64)
        by (Z.to_euclidean_division_equations; lia).
      destruct (Z.eq_dec x 0) as [| Hx0]; [left; assumption |].
      destruct (Z.eq_dec x 255) as [| Hx255]; [right; assumption |].
      exfalso. nia.
    + intros [-> | ->]; reflexivity.
  - intros other Hother. rewrite Hsine, sine_closed, Hother.
    f_equal. lia.
Qed.

Lemma polarity_high_half (phase : Z) :
  is_u16 phase -> polarity phase = (32768 <=? phase).
Proof.
  unfold is_u16. intros Hp.
  assert (Hland : Z.land phase 32768 =
                  if Z.testbit phase 15 then 32768 else 0).
  { apply Z.bits_inj'. intros n Hn.
    rewrite Z.land_spec. change 32768 with (2 ^ 15).
    rewrite Z.pow2_bits_eqb by lia.
    destruct (Z.eqb_spec 15 n) as [<- | Hne].
    - destruct (Z.testbit phase 15) eqn:Hbit.
      + rewrite Z.pow2_bits_eqb by lia. reflexivity.
      + rewrite Z.bits_0. reflexivity.
    - rewrite andb_false_r.
      destruct (Z.testbit phase 15).
      + rewrite Z.pow2_bits_eqb by lia.
        symmetry. apply Z.eqb_neq. exact Hne.
      + rewrite Z.bits_0. reflexivity. }
  unfold polarity, to_bool. rewrite Hland.
  destruct (Z.testbit phase 15) eqn:Hbit.
  - apply Z.testbit_true in Hbit; [| lia]. change (2 ^ 15) with 32768 in Hbit.
    destruct (Z.leb_spec 32768 phase); [reflexivity |].
    rewrite Z.div_small in Hbit by lia. discriminate.
  - destruct (Z.leb_spec 32768 phase) as [Hhigh |]; [| reflexivity].
    assert (Htrue : Z.testbit phase 15 = true).
    { apply Z.testbit_true; [lia |]. change (2 ^ 15) with 32768.
      Z.to_euclidean_division_equations. lia. }
    congruence.
Qed.

(** Half a cycle later the magnitude is the same and the polarity is the
    opposite; the polarity is set exactly in the upper half of the 16-bit
    phase range. *)
Theorem sine_half_cycle (phase : Z) (Hphase : is_u16 phase) :
  polarity phase = (32768 <=? phase) /\
  sine (u16 (phase + 32768)) = sine phase /\
  polarity (u16 (phase + 32768)) = negb (polarity phase).
Proof.
  split; [apply polarity_high_half; exact Hphase |].
  split.
  - rewrite !sine_closed.
    replace (u16 (phase + 32768) mod 32768) with (phase mod 32768);
      [reflexivity |].
    unfold u16. Z.to_euclidean_division_equations. lia.
  - rewrite !polarity_high_half by (exact Hphase || apply u16_range).
    unfold is_u16 in Hphase. unfold u16.
    destruct (Z.leb_spec 32768 phase) as [Hhigh | Hlow].
    + replace ((phase + 32768) mod 65536) with (phase - 32768)
        by (Z.to_euclidean_division_equations; lia).
      apply Z.leb_gt. lia.
    + rewrite Z.mod_small by lia. apply Z.leb_le. lia.
Qed.

Lemma sine_half_cycle_witness :
  polarity 40000 = (32768 <=? 40000) /\
  sine (u16 (40000 + 32768)) = sine 40000 /\
  polarity (u16 (40000 + 32768)) = negb (polarity 40000).
Proof. apply (sine_half_cycle 40000). unfold is_u16. lia. Defined.

Lemma sine_parabola_witness :
  let x := (16256 mod 32768) / 128 in
  0 <= x <= 255 /\
  sine 16256 = x * (255 - x) / 64 /\
  0 <= sine 16256 <= 254 /\
  (sine 16256 = 0 <-> x = 0 \/ x = 255) /\
  (forall other : Z,
     (other mod 32768) / 128 = 255 - x -> sine other = sine 16256).
Proof. apply (sine_parabola 16256). Defined.

(** ** Ring modulation and the wave folder in closed form *)

Lemma sine_range (phase : Z) : 0 <= sine phase <= 254.
Proof.
  rewrite sine_closed.
  pose proof (parabola_bound _ (sine_index_byte phase)) as Hp.
  Z.to_euclidean_division_equations. lia.
Qed.

Lemma ring_closed (a b : Z) :
  0 <= a <= 254 -> 0 <= b <= 254 ->
  ring a b = a * b / 512 /\ 0 <= ring a b <= 126.
Proof.
  intros Ha Hb. unfold ring.
  assert (Hprod : 0 <= a * b <= 64516) by nia.
  rewrite u16_id by (unfold is_u16; lia).
  rewrite !Z.shiftr_div_pow2 by lia.
  change (2 ^ 8) with 256. change (2 ^ 1) with 2.
  revert Hprod. generalize (a * b). intros t Ht.
  split; Z.to_euclidean_division_equations; lia.
Qed.

Lemma ring_modulated_tick (s : State) :
  ring_modulated s =
  (ring (sine (leader_phase (PWM_INTERRUPT s)))
        (sine (follower_phase (PWM_INTERRUPT s))),
   xorb (polarity (leader_phase (PWM_INTERRUPT s)))
        (polarity (follower_phase (PWM_INTERRUPT s)))).
Proof.
  unfold ring_modulated, PWM_INTERRUPT. destruct (fold _ _). reflexivity.
Qed.

Lemma ring_magnitude (s : State) :
  fst (ring_modulated s) =
    sine (leader_phase (PWM_INTERRUPT s)) *
    sine (follower_phase (PWM_INTERRUPT s)) / 512 /\
  0 <= fst (ring_modulated s) <= 126.
Proof.
  rewrite ring_modulated_tick. cbn [fst].
  apply ring_closed; apply sine_range.
Qed.

(** The ring modulator multiplies the two magnitudes without overflow: on
    every tick the magnitude that enters the wave folder is the product of
    the two sines divided by 512, at most 126, and its polarity is the
    exclusive-or of the two polarities. *)
Theorem ring_modulated_range (s : State) :
  let s' := PWM_INTERRUPT s in
  fst (ring_modulated s) =
    sine (leader_phase s') * sine (follower_phase s') / 512 /\
  0 <= fst (ring_modulated s) <= 126 /\
  snd (ring_modulated s) =
    xorb (polarity (leader_phase s')) (polarity (follower_phase s')).
Proof.
  intros s'. subst s'.
  destruct (ring_magnitude s) as [Heq Hle].
  split; [exact Heq |]. split; [exact Hle |].
  rewrite ring_modulated_tick. reflexivity.
Qed.

Lemma scale_closed (m : Z) (pol : bool) (wrap neg_wrap : Z) :
  let f := if pol then wrap else neg_wrap in
  0 <= m <= 126 -> 0 <= f <= 511 ->
  scale m pol wrap neg_wrap = (m * f / 64) mod 256.
Proof.
  intros f Hm Hf. unfold scale. fold f.
  assert (Hprod : 0 <= m * f <= 64386) by nia.
  rewrite u16_id by (unfold is_u16; lia).
  rewrite rescale_div.
  revert Hprod. generalize (m * f). intros t Ht.
  Z.to_euclidean_division_equations. lia.
Qed.

Lemma fold_byte (r : Z) (pol : bool) :
  0 <= r <= 255 ->
  fold r pol = (if r <=? 127 then r else 255 - r, pol).
Proof.
  intros Hr. unfold fold. rewrite multi_fold_byte by exact Hr.
  unfold fold_back.
  destruct (Z.gtb_spec r 127) as [Hgt | Hle];
    destruct (Z.leb_spec r 127) as [Hle' | Hgt']; try lia; [| reflexivity].
  rewrite land_127.
  replace (r mod 128) with (r - 128)
    by (Z.to_euclidean_division_equations; lia).
  rewrite u16_id by (unfold is_u16; lia). f_equal. lia.
Qed.

Lemma tick_folder (s : State) :
  0 <= wrap_factor s <= 511 -> 0 <= neg_wrap_factor s <= 511 ->
  let m := fst (ring_modulated s) in
  let p := snd (ring_modulated s) in
  let r := (m * (if p then wrap_factor s else neg_wrap_factor s) / 64)
           mod 256 in
  leader_value (PWM_INTERRUPT s) = (if r <=? 127 then r else 255 - r) /\
  leader_polarity (PWM_INTERRUPT s) = p.
Proof.
  intros Hw Hn m p r.
  destruct (ring_magnitude s) as [_ Hm]. fold m in Hm.
  pose proof (tick_folded s) as Hfold. fold m p in Hfold.
  rewrite scale_closed in Hfold by (try exact Hm; destruct p; assumption).
  fold r in Hfold.
  rewrite fold_byte in Hfold
    by (subst r; Z.to_euclidean_division_equations; lia).
  split.
  - apply (f_equal fst) in Hfold. exact Hfold.
  - apply (f_equal snd) in Hfold. exact Hfold.
Qed.

(** The wave folder in closed form.  With both thresholds at most 511,
    the magnitude [m] from the ring modulator is multiplied by the
    threshold the polarity selects and divided by 64, the result is taken
    modulo 256 and the upper half of that range is reflected: the folded
    magnitude is a triangle wave of the scaled value with period 256, and
    the polarity leaves the folder as it entered. *)
Theorem folder_triangle (s : State)
    (Hwrap : 0 <= wrap_factor s <= 511)
    (Hneg : 0 <= neg_wrap_factor s <= 511) :
  let m := fst (ring_modulated s) in
  let p := snd (ring_modulated s) in
  let r := (m * (if p then wrap_factor s else neg_wrap_factor s) / 64)
           mod 256 in
  leader_value (PWM_INTERRUPT s) = (if r <=? 127 then r else 255 - r) /\
  leader_polarity (PWM_INTERRUPT s) = p /\
  output (PWM_INTERRUPT s) =
    (if p then 127 - leader_value (PWM_INTERRUPT s)
     else 128 + leader_value (PWM_INTERRUPT s)).
Proof.
  intros m p r.
  destruct (tick_folder s Hwrap Hneg) as [Hv Hp]. fold m p r in Hv, Hp.
  split; [exact Hv |]. split; [exact Hp |].
  destruct (tick_output s) as [-> _].
  rewrite to_output_exact by apply tick_magnitude.
  rewrite Hp. reflexivity.
Qed.

Lemma folder_triangle_witness :
  let s := tick_state 16187 69 0 0 511 255 in
  let m := fst (ring_modulated s) in
  let p := snd (ring_modulated s) in
  let r := (m * (if p then wrap_factor s else neg_wrap_factor s) / 64)
           mod 256 in
  leader_value (PWM_INTERRUPT s) = (if r <=? 127 then r else 255 - r) /\
  leader_polarity (PWM_INTERRUPT s) = p /\
  output (PWM_INTERRUPT s) =
    (if p then 127 - leader_value (PWM_INTERRUPT s)
     else 128 + leader_value (PWM_INTERRUPT s)).
Proof.
  apply (folder_triangle (tick_state 16187 69 0 0 511 255)); simpl; lia.
Defined.

(** At the minimum setting, both thresholds 64, the folder does nothing:
    the folded magnitude is the ring-modulated magnitude itself and the
    sample is that magnitude above 128 or below 127. *)
Theorem minimum_fold_is_transparent (s : State)
    (Hwrap : wrap_factor s = 64) (Hneg : neg_wrap_factor s = 64) :
  leader_value (PWM_INTERRUPT s) = fst (ring_modulated s) /\
  leader_polarity (PWM_INTERRUPT s) = snd (ring_modulated s) /\
  output (PWM_INTERRUPT s) =
    (if snd (ring_modulated s) then 127 - fst (ring_modulated s)
     else 128 + fst (ring_modulated s)).
Proof.
  destruct (ring_magnitude s) as [_ Hm].
  destruct (tick_folder s) as [Hv Hp]; [lia | lia |].
  rewrite Hwrap, Hneg in Hv.
  assert (Hr : (fst (ring_modulated s) *
                (if snd (ring_modulated s) then 64 else 64) / 64) mod 256 =
               fst (ring_modulated s)).
  { destruct (snd (ring_modulated s));
      rewrite Z.div_mul by lia; apply Z.mod_small; lia. }
  rewrite Hr in Hv.
  destruct (Z.leb_spec (fst (ring_modulated s)) 127); [| lia].
  split; [exact Hv |]. split; [exact Hp |].
  destruct (tick_output s) as [-> _].
  rewrite to_output_exact by apply tick_magnitude.
  rewrite Hp, Hv. reflexivity.
Qed.

Lemma minimum_fold_is_transparent_witness :
  let s := tick_state 16187 69 0 0 64 64 in
  leader_value (PWM_INTERRUPT s) = fst (ring_modulated s) /\
  leader_polarity (PWM_INTERRUPT s) = snd (ring_modulated s) /\
  output (PWM_INTERRUPT s) =
    (if snd (ring_modulated s) then 127 - fst (ring_modulated s)
     else 128 + fst (ring_modulated s)).
Proof.
  apply (minimum_fold_is_transparent (tick_state 16187 69 0 0 64 64));
    reflexivity.
Defined.

(** ** The folding step on the whole 16-bit range *)

Lemma multi_fold_nonneg (v : Z) (pol : bool) :
  0 <= v -> 0 <= fst (multi_fold v pol).
Proof.
  intros Hv. unfold multi_fold.
  destruct (to_bool (Z.land v 65280)); cbn [fst]; [| exact Hv].
  rewrite land_255. apply Z.mod_pos_bound. lia.
Qed.

Lemma multi_fold_polarity (v : Z) (pol : bool) :
  fst (multi_fold v (negb pol)) = fst (multi_fold v pol) /\
  snd (multi_fold v (negb pol)) = negb (snd (multi_fold v pol)).
Proof.
  unfold multi_fold.
  destruct (to_bool (Z.land v 65280)); cbn [fst snd]; [| split; reflexivity].
  destruct (to_bool (Z.land v 256)); split; reflexivity.
Qed.

Lemma fold_range (v : Z) (pol : bool) :
  is_u16 v -> 0 <= fst (fold v pol) /\ fst (fold v pol) <= 127.
Proof.
  unfold is_u16. intros Hv. unfold fold.
  pose proof (multi_fold_nonneg v pol ltac:(lia)) as Hnn.
  destruct (multi_fold v pol) as [v1 p1]. cbn [fst] in *.
  apply fold_back_range. exact Hnn.
Qed.

(** The folding step, taken on any 16-bit value and on both branches of
    its multi-fold test, lands in [0,127] and is idempotent: folding its
    own result again changes neither magnitude nor polarity. *)
Theorem fold_idempotent (v : Z) (pol : bool) (Hv : is_u16 v) :
  0 <= fst (fold v pol) <= 127 /\
  fold (fst (fold v pol)) (snd (fold v pol)) = fold v pol.
Proof.
  assert (Hrange : 0 <= fst (fold v pol) <= 127)
    by (apply fold_range; exact Hv).
  split; [exact Hrange |].
  destruct (fold v pol) as [v2 p2]. cbn [fst snd] in *.
  rewrite fold_byte by lia.
  destruct (Z.leb_spec v2 127); [reflexivity | lia].
Qed.

Lemma fold_idempotent_witness :
  0 <= fst (fold 1006 true) <= 127 /\
  fold (fst (fold 1006 true)) (snd (fold 1006 true)) = fold 1006 true.
Proof. apply (fold_idempotent 1006 true). unfold is_u16. lia. Defined.

(** The folder and the output stage are odd-symmetric: the opposite input
    polarity gives the same folded magnitude, the opposite output polarity
    and the mirrored sample, [255] minus the other one. *)
Theorem fold_output_mirror (v : Z) (pol : bool) (Hv : is_u16 v) :
  fst (fold v (negb pol)) = fst (fold v pol) /\
  snd (fold v (negb pol)) = negb (snd (fold v pol)) /\
  to_output (snd (fold v (negb pol))) (fst (fold v (negb pol))) =
    255 - to_output (snd (fold v pol)) (fst (fold v pol)).
Proof.
  destruct (fold_range v pol Hv) as [Hlo Hhi].
  assert (Hfst : fst (fold v (negb pol)) = fst (fold v pol)).
  { unfold fold. destruct (multi_fold_polarity v pol) as [Hf _].
    destruct (multi_fold v (negb pol)), (multi_fold v pol).
    cbn [fst] in *. rewrite Hf. reflexivity. }
  assert (Hsnd : snd (fold v (negb pol)) = negb (snd (fold v pol))).
  { unfold fold. destruct (multi_fold_polarity v pol) as [_ Hs].
    destruct (multi_fold v (negb pol)), (multi_fold v pol).
    cbn [snd] in *. exact Hs. }
  split; [exact Hfst |]. split; [exact Hsnd |].
  rewrite Hfst, Hsnd, !to_output_exact by lia.
  destruct (snd (fold v pol)); cbn [negb]; lia.
Qed.

Lemma fold_output_mirror_witness :
  fst (fold 200 (negb false)) = fst (fold 200 false) /\
  snd (fold 200 (negb false)) = negb (snd (fold 200 false)) /\
  to_output (snd (fold 200 (negb false))) (fst (fold 200 (negb false))) =
    255 - to_output (snd (fold 200 false)) (fst (fold 200 false)).
Proof. apply (fold_output_mirror 200 false). unfold is_u16. lia. Defined.

(** ** Hard sync and special offsets *)

Lemma tick_polarity_kept (s : State) :
  leader_polarity (PWM_INTERRUPT s) = snd (ring_modulated s).
Proof.
  pose proof (tick_folded s) as Hfold. unfold fold in Hfold.
  rewrite multi_fold_byte in Hfold by apply scale_byte.
  apply (f_equal snd) in Hfold. exact Hfold.
Qed.

Lemma tick_follow (s : State) :
  follower_phase (PWM_INTERRUPT s) =
  follow (leader_phase (PWM_INTERRUPT s))
         (follower_offset_current (PWM_INTERRUPT s)).
Proof.
  destruct (tick_follower_phase s) as [Hacc ->]. rewrite Hacc.
  apply u16_id. unfold follow. rewrite land_65535.
  apply Z.mod_pos_bound. lia.
Qed.

Lemma follow_zero (offset : Z) : follow 0 offset = 0.
Proof.
  unfold follow, u32. cbv zeta.
  change (0 mod 4294967296) with 0.
  rewrite Z.mul_0_l. reflexivity.
Qed.

(** The follower has no phase of its own: it is recomputed from the
    leader on every tick.  Whenever the tick brings the leader phase to 0
    the follower phase is 0 too, whatever the offsets and the follower
    phase were (hard sync); and when the offset smoothed on this tick is
    [256 * k], the follower phase is exactly [k + 1] times the new leader
    phase, modulo 65536. *)
Theorem follower_harmonics (s : State) :
  (u16 (leader_phase s + phase_inc s) = 0 ->
   leader_phase (PWM_INTERRUPT s) = 0 /\
   follower_phase (PWM_INTERRUPT s) = 0) /\
  (forall k : Z,
     0 <= k <= 255 ->
     smooth (follower_offset_current s) (follower_offset_measured s) =
       256 * k ->
     follower_offset_current (PWM_INTERRUPT s) = 256 * k /\
     follower_phase (PWM_INTERRUPT s) =
       ((k + 1) * u16 (leader_phase s + phase_inc s)) mod 65536).
Proof.
  pose proof (tick_leader_phase s) as Hlp.
  pose proof (tick_follow s) as Hfp.
  destruct (tick_offset s) as [Hcur _].
  split.
  - intros Hzero. rewrite Hlp, Hzero in Hfp. rewrite Hlp, Hfp.
    split; [exact Hzero | apply follow_zero].
  - intros k Hk Hoff. rewrite Hcur, Hoff in Hfp. rewrite Hcur, Hfp, Hlp.
    split; [exact Hoff |].
    set (phase := u16 (leader_phase s + phase_inc s)).
    destruct (follow_exact phase (256 * k)) as [_ [_ ->]];
      [apply u16_range | unfold is_u16; lia |].
    assert (Hshift : Z.shiftr (phase * (256 * k)) 8 = phase * k).
    { rewrite Z.shiftr_div_pow2 by lia. change (2 ^ 8) with 256.
      replace (phase * (256 * k)) with (phase * k * 256) by lia.
      apply Z.div_mul. lia. }
    rewrite Hshift. f_equal. lia.
Qed.

Lemma follower_harmonics_witness :
  let s := tick_state 65467 69 511 512 64 64 in
  (u16 (leader_phase s + phase_inc s) = 0 ->
   leader_phase (PWM_INTERRUPT s) = 0 /\
   follower_phase (PWM_INTERRUPT s) = 0) /\
  (forall k : Z,
     0 <= k <= 255 ->
     smooth (follower_offset_current s) (follower_offset_measured s) =
       256 * k ->
     follower_offset_current (PWM_INTERRUPT s) = 256 * k /\
     follower_phase (PWM_INTERRUPT s) =
       ((k + 1) * u16 (leader_phase s + phase_inc s)) mod 65536).
Proof. apply (follower_harmonics (tick_state 65467 69 511 512 64 64)). Defined.

(** Two such ticks: from phase 65467 the leader wraps to 0 and takes the
    follower with it although the offset is 512; from phase 931 with the
    offset smoothed to 512 the follower is at three times the leader. *)
Example follower_harmonics_at_512 :
  let s0 := tick_state 65467 69 511 512 64 64 in
  let s1 := tick_state 931 69 511 512 64 64 in
  u16 (leader_phase s0 + phase_inc s0) = 0 /\
  follower_phase (PWM_INTERRUPT s0) = 0 /\
  smooth (follower_offset_current s1) (follower_offset_measured s1) =
    256 * 2 /\
  leader_phase (PWM_INTERRUPT s1) = 1000 /\
  follower_phase (PWM_INTERRUPT s1) = 3000.
Proof. vm_compute. repeat split; reflexivity. Qed.

(** With the follower offset at rest on 0 the follower is the leader: the
    two polarities cancel, the polarity flag is clear after the tick and
    the sample is in the upper half, [128 .. 255]. *)
Theorem zero_offset_is_unipolar (s : State)
    (Hcur : follower_offset_current s = 0)
    (Hmeas : follower_offset_measured s = 0) :
  follower_phase (PWM_INTERRUPT s) = leader_phase (PWM_INTERRUPT s) /\
  leader_polarity (PWM_INTERRUPT s) = false /\
  128 <= output (PWM_INTERRUPT s) <= 255.
Proof.
  assert (Hoff : follower_offset_current (PWM_INTERRUPT s) = 256 * 0).
  { destruct (tick_offset s) as [-> _]. rewrite Hcur, Hmeas. reflexivity. }
  assert (Hphase : is_u16 (leader_phase (PWM_INTERRUPT s)))
    by (rewrite tick_leader_phase; apply u16_range).
  assert (Hsame : follower_phase (PWM_INTERRUPT s) =
                  leader_phase (PWM_INTERRUPT s)).
  { rewrite tick_follow, Hoff.
    destruct (follow_exact (leader_phase (PWM_INTERRUPT s)) (256 * 0) Hphase)
      as [_ [_ ->]]; [unfold is_u16; lia |].
    rewrite Z.mul_0_r, Z.shiftr_0_l, Z.add_0_r.
    apply Z.mod_small. exact Hphase. }
  assert (Hpol : leader_polarity (PWM_INTERRUPT s) = false).
  { rewrite tick_polarity_kept, ring_modulated_tick. cbn [snd].
    rewrite Hsame. apply xorb_nilpotent. }
  split; [exact Hsame |]. split; [exact Hpol |].
  destruct (tick_output s) as [-> _].
  pose proof (tick_magnitude s) as Hmag.
  rewrite to_output_exact by exact Hmag.
  rewrite Hpol. lia.
Qed.

Lemma zero_offset_is_unipolar_witness :
  let s := tick_state 40000 2188 0 0 511 255 in
  follower_phase (PWM_INTERRUPT s) = leader_phase (PWM_INTERRUPT s) /\
  leader_polarity (PWM_INTERRUPT s) = false /\
  128 <= output (PWM_INTERRUPT s) <= 255.
Proof.
  apply (zero_offset_is_unipolar (tick_state 40000 2188 0 0 511 255));
    reflexivity.
Defined.

(** A zero of either sine is a zero of the output, whatever the fold
    thresholds hold: when the leader or the follower magnitude is 0 the
    folded magnitude is 0 and the sample is 127 or 128. *)
Theorem zero_crossing_survives_folding (s : State)
    (Hzero : sine (leader_phase (PWM_INTERRUPT s)) = 0 \/
             sine (follower_phase (PWM_INTERRUPT s)) = 0) :
  leader_value (PWM_INTERRUPT s) = 0 /\
  (output (PWM_INTERRUPT s) = 127 \/ output (PWM_INTERRUPT s) = 128).
Proof.
  assert (Hm : fst (ring_modulated s) = 0).
  { destruct (ring_magnitude s) as [-> _].
    destruct Hzero as [-> | ->]; [| rewrite Z.mul_0_r]; reflexivity. }
  assert (Hv : leader_value (PWM_INTERRUPT s) = 0).
  { pose proof (tick_folded s) as Hfold. rewrite Hm in Hfold.
    apply (f_equal fst) in Hfold. cbn [fst] in Hfold. rewrite Hfold.
    unfold scale. rewrite Z.mul_0_l. reflexivity. }
  split; [exact Hv |].
  destruct (tick_output s) as [-> _]. rewrite Hv.
  destruct (leader_polarity (PWM_INTERRUPT s)); [left | right]; reflexivity.
Qed.

Lemma zero_crossing_survives_folding_witness :
  let s := tick_state 32768 0 256 256 511 255 in
  leader_value (PWM_INTERRUPT s) = 0 /\
  (output (PWM_INTERRUPT s) = 127 \/ output (PWM_INTERRUPT s) = 128).
Proof.
  apply (zero_crossing_survives_folding (tick_state 32768 0 256 256 511 255)).
  left. reflexivity.
Defined.
